(** * Gemini Router v6: a shallow embedding of [gemini_router.py]

    The development follows the layout of the Python module:
    state files, credentials, [call_model], [assign_multi_tiers] and
    [route_request].

    Modelling conventions.
    - A Python [float] is a binary64 value: Rocq's primitive [float],
      with the same rounding as CPython.  [sum] over floats is the plain
      left-to-right sum (CPython 3.12 and later compensate its rounding
      error; nothing below depends on the difference).
    - A Python [int] is a [Z].
    - A Python [dict] keeps insertion order and [route_request] depends on
      it, so the dicts that are iterated are association lists
      ([PyDict]); the cooldown registry is only looked up, updated and
      saved, so it is a [gmap].
    - [collections.deque(maxlen=N)] is a list, oldest record first.
    - The rank thresholds [n*0.2], [n*0.5], [n*0.8] of [tier_rank] are
      taken as exact rationals; [tier_letter_f64] is the same test in
      binary64 and the two are compared below for every [n <= 200].
    - The outside world (environment variables, [time.time], the remote
      [generate_content], model discovery) is a record of oracles; the
      three JSON files and the objects [route_request] mutates live in an
      explicit state.  Writing a state file always succeeds. *)

From Stdlib Require Import ZArith QArith Floats Lia.
From stdpp Require Import base option list strings gmap sorting.

Close Scope Q_scope.
#[local] Set Warnings "-inexact-float,-clear-no-such-hyp".
Open Scope Z_scope.
Open Scope nat_scope.

(* ------------------------------------------------------------------ *)
(** * Config *)
(* ------------------------------------------------------------------ *)

Definition ROLLING_WINDOW : nat := 20.
Definition COOLDOWN_SECS : Z := 60.

(** Conversion of a Python [int] to [float], round to nearest even.
    (CPython raises [OverflowError] beyond the binary64 range, where this
    gives an infinity.) *)
Definition float_of_Z (z : Z) : float :=
  SF2Prim (binary_normalize prec emax z 0 false).

(* ------------------------------------------------------------------ *)
(** * Python dictionaries, in insertion order *)
(* ------------------------------------------------------------------ *)

Module PyDict.
Section Dict.
Context {V : Type}.

Definition dict := list (string * V).

Definition empty : dict := [].

(** [k in d], [d.get(k)] *)
Fixpoint get (d : dict) (k : string) : option V :=
  match d with
  | [] => None
  | (k', v) :: d' => if decide (k' = k) then Some v else get d' k
  end.

(** [d[k] = v]: an existing key keeps its position, a new one goes last. *)
Fixpoint set (d : dict) (k : string) (v : V) : dict :=
  match d with
  | [] => [(k, v)]
  | (k', v') :: d' =>
      if decide (k' = k) then (k', v) :: d' else (k', v') :: set d' k v
  end.

Definition keys (d : dict) : list string := d.*1.

(** A well-formed dict holds each key once. *)
Definition wf (d : dict) : Prop := NoDup (keys d).

Lemma keys_set_in d k v : k ∈ keys d → keys (set d k v) = keys d.
Proof.
  unfold keys. induction d as [|[k' v'] d IH]; simpl; intros Hin.
  - by apply elem_of_nil in Hin.
  - case_decide; simpl; [done|].
    f_equal. apply IH. apply elem_of_cons in Hin as [->|]; done.
Qed.

Lemma keys_set_notin d k v : k ∉ keys d → keys (set d k v) = keys d ++ [k].
Proof.
  unfold keys. induction d as [|[k' v'] d IH]; simpl; intros Hin; [done|].
  apply not_elem_of_cons in Hin as [Hne Hin].
  case_decide; [congruence|]. simpl. f_equal. by apply IH.
Qed.

Lemma wf_empty : wf empty.
Proof. constructor. Qed.

Lemma wf_set d k v : wf d → wf (set d k v).
Proof.
  unfold wf. intros Hd. destruct (decide (k ∈ keys d)) as [Hin|Hin].
  - by rewrite keys_set_in.
  - rewrite keys_set_notin by done. apply NoDup_app. split_and!; [done| |].
    + intros x Hx Hx'. apply list_elem_of_singleton in Hx'. by subst.
    + apply NoDup_singleton.
Qed.

Lemma get_set_eq d k v : get (set d k v) k = Some v.
Proof.
  induction d as [|[k' v'] d IH]; simpl.
  - by rewrite decide_True.
  - case_decide; simpl; [by rewrite decide_True|by rewrite decide_False].
Qed.

Lemma get_set_ne d k k' v : k ≠ k' → get (set d k v) k' = get d k'.
Proof.
  intros Hne. induction d as [|[k0 v0] d IH]; simpl.
  - by rewrite decide_False.
  - destruct (decide (k0 = k)) as [->|]; simpl.
    + by rewrite !decide_False.
    + case_decide; done.
Qed.

Lemma get_Some_in d k v : get d k = Some v → (k, v) ∈ d.
Proof.
  induction d as [|[k' v'] d IH]; simpl; [done|].
  case_decide; intros Hg.
  - simplify_eq. apply list_elem_of_here.
  - apply list_elem_of_further. by apply IH.
Qed.

Lemma get_None d k : get d k = None ↔ k ∉ keys d.
Proof.
  unfold keys. induction d as [|[k' v'] d IH]; simpl.
  - split; [intros _; apply not_elem_of_nil|done].
  - case_decide; subst.
    + split; [done|]. intros []. apply list_elem_of_here.
    + rewrite IH, not_elem_of_cons. split; [by intros ?; split|by intros [_ ?]].
Qed.

Lemma get_wf_in d k v : wf d → (k, v) ∈ d → get d k = Some v.
Proof.
  unfold wf, keys. induction d as [|[k' v'] d IH]; simpl; intros Hnd Hin.
  - by apply elem_of_nil in Hin.
  - apply NoDup_cons in Hnd as [Hk' Hnd].
    apply elem_of_cons in Hin as [Heq|Hin].
    + simplify_eq. by rewrite decide_True.
    + case_decide; [|by apply IH]. subst. exfalso. apply Hk'.
      apply list_elem_of_fmap. by exists (k, v).
Qed.
End Dict.
Arguments dict : clear implicits.
End PyDict.

Abbreviation dict := PyDict.dict.

(* ------------------------------------------------------------------ *)
(** * Rolling windows: [deque(maxlen=ROLLING_WINDOW)] *)
(* ------------------------------------------------------------------ *)

Section Deque.
Context {A : Type}.

(** [deque(l, maxlen)]: the last [maxlen] items of [l]. *)
Definition deque (maxlen : nat) (l : list A) : list A :=
  drop (length l - maxlen) l.

(** [d.append(e)] on a deque made with [maxlen]. *)
Definition deque_append (maxlen : nat) (d : list A) (e : A) : list A :=
  deque maxlen (d ++ [e]).

Lemma deque_length maxlen l : length (deque maxlen l) ≤ maxlen.
Proof. unfold deque. rewrite length_drop. lia. Qed.

Lemma deque_short maxlen l : length l ≤ maxlen → deque maxlen l = l.
Proof.
  intros Hl. unfold deque. replace (length l - maxlen) with 0 by lia. done.
Qed.

End Deque.

(* ------------------------------------------------------------------ *)
(** * Probe records and derived metrics *)
(* ------------------------------------------------------------------ *)

(** One record of a window, as [call_model] and the prober write it:
    [{"success": 0|1, "latency": seconds, "max_tokens": capacity}].
    [max_tokens] is read with [e.get("max_tokens", 0)], so the key may be
    missing. *)
Module Entry.
Record t := mk { success : Z; latency : float; max_tokens : option Z }.
End Entry.

(** The per-model value of [metrics] in [assign_multi_tiers]. *)
Module Metric.
Record t := mk { latency : float; max_tokens : Z; success_rate : float }.
End Metric.

(** [sum(l)] over ints and over floats, and [max(l)] of a non-empty list. *)
Definition sum_Z (l : list Z) : Z := foldl Z.add 0%Z l.
Definition sum_float (l : list float) : float :=
  foldl PrimFloat.add 0%float l.
Definition max_Z (x : Z) (l : list Z) : Z := foldl Z.max x l.

(** [e.get("max_tokens", 0)] *)
Definition get_max_tokens (e : Entry.t) : Z := default 0%Z (Entry.max_tokens e).

Definition positive_latencies (entries : list Entry.t) : list float :=
  filter (λ l, (0 <? l)%float = true) (Entry.latency <$> entries).

(** The body of the first loop of [assign_multi_tiers] for one model. *)
Definition derive (entries : list Entry.t) : Metric.t :=
  match entries with
  | [] => Metric.mk infinity 0 0
  | e :: es =>
      let successes := sum_Z (Entry.success <$> entries) in
      let total := length entries in
      let success_rate :=
        (float_of_Z successes / float_of_Z (Z.of_nat total))%float in
      let latencies := positive_latencies entries in
      let avg_latency :=
        match latencies with
        | [] => infinity
        | _ => (sum_float latencies
                / float_of_Z (Z.of_nat (length latencies)))%float
        end in
      let max_tokens := max_Z (get_max_tokens e) (get_max_tokens <$> es) in
      Metric.mk avg_latency max_tokens success_rate
  end.

(** The sort key of [balance_rank]: the blended score. *)
Definition balance_key (x : Metric.t) : float :=
  ((1 - Metric.success_rate x) * 1000 + Metric.latency x
   - float_of_Z (Metric.max_tokens x) * 0.1)%float.

(* ------------------------------------------------------------------ *)
(** * [sorted(l, key=...)]: a stable sort that only uses [<] on keys *)
(* ------------------------------------------------------------------ *)

(** CPython's sort is stable and compares keys with [<] only.  Where [<]
    orders the keys (numbers other than NaN) every such sort returns the
    same list; insertion sort is taken here. *)

Section Sorted.
Context {A K : Type} (lt : K → K → bool) (key : A → K).

(** [x] was before every item of [l] in the input: it stays before the
    items whose key is not smaller. *)
Fixpoint insert_stable (x : A) (l : list A) : list A :=
  match l with
  | [] => [x]
  | y :: l' =>
      if lt (key y) (key x) then y :: insert_stable x l' else x :: l
  end.

Definition sorted (l : list A) : list A := foldr insert_stable [] l.

Lemma insert_stable_Permutation x l : insert_stable x l ≡ₚ x :: l.
Proof.
  induction l as [|y l IH]; simpl; [done|].
  destruct (lt (key y) (key x)); [|done].
  rewrite IH. apply Permutation_swap.
Qed.

Lemma sorted_Permutation l : sorted l ≡ₚ l.
Proof.
  induction l as [|x l IH]; simpl; [done|].
  by rewrite insert_stable_Permutation, IH.
Qed.
End Sorted.

(* ------------------------------------------------------------------ *)
(** * Multi-tier assignment *)
(* ------------------------------------------------------------------ *)

Inductive tier := tS | tA | tB | tC.

#[global] Instance tier_eq_dec : EqDecision tier.
Proof. solve_decision. Defined.

Definition Qltb (x y : Q) : bool := negb (Qle_bool y x).

(** The letter [tier_rank] gives to rank position [i] of [n]. *)
Definition tier_letter (i n : nat) : tier :=
  let qi := inject_Z (Z.of_nat i) in
  let qn := inject_Z (Z.of_nat n) in
  if Qltb qi (qn * 0.2) then tS
  else if Qltb qi (qn * 0.5) then tA
  else if Qltb qi (qn * 0.8) then tB
  else tC.

(** The same test with binary64 products, as CPython evaluates it. *)
Definition tier_letter_f64 (i n : nat) : tier :=
  let fi := float_of_Z (Z.of_nat i) in
  let fn := float_of_Z (Z.of_nat n) in
  if (fi <? fn * 0.2)%float then tS
  else if (fi <? fn * 0.5)%float then tA
  else if (fi <? fn * 0.8)%float then tB
  else tC.

(** [enumerate(l, start)] *)
Fixpoint enumerate {A} (start : nat) (l : list A) : list (nat * A) :=
  match l with
  | [] => []
  | x :: l' => (start, x) :: enumerate (S start) l'
  end.

(** The inner function [tier_rank] of [assign_multi_tiers]. *)
Definition tier_rank {X} (rank_list : list (string * X)) : dict tier :=
  let n := length rank_list in
  foldl (λ tiers '(i, (m, _)), PyDict.set tiers m (tier_letter i n))
        PyDict.empty (enumerate 0 rank_list).

Record tiers3 := { fast : tier; quality : tier; balance : tier }.

Definition metrics_of (stats : dict (list Entry.t)) : dict Metric.t :=
  foldl (λ metrics '(m, entries), PyDict.set metrics m (derive entries))
        PyDict.empty stats.

Definition fast_rank (metrics : dict Metric.t) : list (string * Metric.t) :=
  sorted PrimFloat.ltb (λ x, Metric.latency x.2) metrics.

Definition quality_rank (metrics : dict Metric.t) : list (string * Metric.t) :=
  sorted Z.ltb (λ x, (- Metric.max_tokens x.2)%Z) metrics.

Definition balance_rank (metrics : dict Metric.t) : list (string * Metric.t) :=
  sorted PrimFloat.ltb (λ x, balance_key x.2) metrics.

(** [assign_multi_tiers(stats)].  The result is [None] where Python would
    raise [KeyError] on [tier_rank(...)[m]]; [assign_multi_tiers_total]
    shows that this never happens. *)
Definition assign_multi_tiers (stats : dict (list Entry.t))
  : option (dict tiers3) :=
  let metrics := metrics_of stats in
  mapM (λ m,
          f ← PyDict.get (tier_rank (fast_rank metrics)) m;
          q ← PyDict.get (tier_rank (quality_rank metrics)) m;
          b ← PyDict.get (tier_rank (balance_rank metrics)) m;
          Some (m, {| fast := f; quality := q; balance := b |}))
       (PyDict.keys stats).

(* ------------------------------------------------------------------ *)
(** * The candidate order of [route_request] *)
(* ------------------------------------------------------------------ *)

(** [if state.get("lock")]: [None] and the empty string are falsy. *)
Definition lock_set (lock : option string) : option string :=
  match lock with
  | Some m => if decide (m = "") then None else Some m
  | None => None
  end.

(** One round of the [for tier in ...] loop: the comprehension is built
    from [order] as it was before the [extend]; for an item [(m, t)] of
    [multi_tiers], [multi_tiers[m]] is [t]. *)
Definition extend_tier (multi_tiers : dict tiers3) (order : list string)
    (tier : tier) : list string :=
  order ++ (filter (λ mt, balance mt.2 = tier ∧ mt.1 ∉ order)
                   multi_tiers).*1.

Definition build_order (lock : option string) (multi_tiers : dict tiers3)
  : list string :=
  let order := match lock_set lock with Some m => [m] | None => [] end in
  foldl (extend_tier multi_tiers) order [tS; tA; tB; tC].

(* ------------------------------------------------------------------ *)
(** * The outside world and the router's state *)
(* ------------------------------------------------------------------ *)

(** What [generate_content] returns: [text] and [max_output_tokens] are
    read with [getattr] and a default, [str] is [str(resp)]. *)
Record response := {
  text : option string;
  max_output_tokens : option Z;
  str : string;
}.

(** The collaborators of the router.  [time_time n] is the value of the
    [n]-th call of [time.time()] (counted from 0); [generate_content n]
    answers the [n]-th remote invocation, [None] when it raises;
    [list_models] is the model discovery of [get_available_models]. *)
Record world := {
  environ : list (string * string);
  time_time : nat → float;
  generate_content : nat → string → string → string → option response;
  list_models : string → list string;
}.

(** The three JSON files; [None] is a missing or unreadable file.  The
    state file is given by its ["lock"] entry, [None] for [null] or no
    entry. *)
Record files := {
  STATS_FILE : option (dict (list Entry.t));
  STATE_FILE : option (option string);
  COOLDOWN_FILE : option (gmap string float);
}.

(** One call of [save_json]. *)
Inductive save :=
| save_stats_ev (serial : dict (list Entry.t))
| save_cooldowns_ev (c : gmap string float).

Definition is_save_cooldowns (w : save) : bool :=
  match w with save_cooldowns_ev _ => true | save_stats_ev _ => false end.

(** The state one call of [route_request] runs in: the files, the log of
    [save_json] calls, the number of clock readings, the remote
    invocations made so far ((model, key), oldest first), and the two
    objects [stats] and [cooldowns] that the call mutates in place. *)
Record state := {
  disk : files;
  saves : list save;
  clock : nat;
  attempts : list (string * string);
  stats : dict (list Entry.t);
  cooldowns : gmap string float;
}.

Definition boot (fs : files) : state :=
  {| disk := fs; saves := []; clock := 0; attempts := [];
     stats := PyDict.empty; cooldowns := ∅ |}.

Inductive exn :=
| RuntimeError (msg : string)
| KeyError (key : string)
| RemoteError.

Definition NoCredentials : exn :=
  RuntimeError "No GEMINI_API_KEY* env vars found".
Definition NoBackendAvailable : exn :=
  RuntimeError "No available model worked".

Inductive outcome (A : Type) :=
| Return (a : A)
| Raise (e : exn).
Arguments Return {A} a.
Arguments Raise {A} e.

(** Computations that read and change the state and may raise; what was
    changed before a [Raise] stays changed. *)
Definition M (A : Type) : Type := state → outcome A * state.

#[global] Instance M_ret : MRet M := λ A a s, (Return a, s).
#[global] Instance M_bind : MBind M := λ A B f c s,
  match c s with
  | (Return a, s') => f a s'
  | (Raise e, s') => (Raise e, s')
  end.

Definition raise {A} (e : exn) : M A := λ s, (Raise e, s).

(** [try: c except Exception: ...] as a value: the exception or the result. *)
Definition try {A} (c : M A) : M (exn + A) := λ s,
  match c s with
  | (Return a, s') => (Return (inr a), s')
  | (Raise e, s') => (Return (inl e), s')
  end.

Definition get_state : M state := λ s, (Return s, s).

Module Reply.
Record t := mk {
  model : string; latency : float; max_tokens : Z; response : string;
}.
End Reply.

(* ------------------------------------------------------------------ *)
(** * State management *)
(* ------------------------------------------------------------------ *)

Definition load_json {A} (file : option A) (default : A) : A :=
  match file with Some data => data | None => default end.

(** [load_stats]: every window becomes a deque bounded by
    [ROLLING_WINDOW]. *)
Definition load_stats (fs : files) : dict (list Entry.t) :=
  let raw := load_json (STATS_FILE fs) PyDict.empty in
  foldl (λ stats '(m, entries),
           PyDict.set stats m (deque ROLLING_WINDOW entries))
        PyDict.empty raw.

Definition load_cooldowns (fs : files) : gmap string float :=
  load_json (COOLDOWN_FILE fs) ∅.

(** [load_state()] followed by [state.get("lock")]. *)
Definition load_state (fs : files) : option string :=
  load_json (STATE_FILE fs) None.

Definition save_stats : M unit := λ s,
  (Return tt,
   {| disk := {| STATS_FILE := Some (stats s);
                 STATE_FILE := STATE_FILE (disk s);
                 COOLDOWN_FILE := COOLDOWN_FILE (disk s) |};
      saves := saves s ++ [save_stats_ev (stats s)];
      clock := clock s; attempts := attempts s;
      stats := stats s; cooldowns := cooldowns s |}).

Definition save_cooldowns : M unit := λ s,
  (Return tt,
   {| disk := {| STATS_FILE := STATS_FILE (disk s);
                 STATE_FILE := STATE_FILE (disk s);
                 COOLDOWN_FILE := Some (cooldowns s) |};
      saves := saves s ++ [save_cooldowns_ev (cooldowns s)];
      clock := clock s; attempts := attempts s;
      stats := stats s; cooldowns := cooldowns s |}).

(** [stats[model].append(e)] on the [defaultdict] of deques. *)
Definition stats_append (stats : dict (list Entry.t)) (model : string)
    (e : Entry.t) : dict (list Entry.t) :=
  PyDict.set stats model
    (deque_append ROLLING_WINDOW (default [] (PyDict.get stats model)) e).

(* ------------------------------------------------------------------ *)
(** * API keys *)
(* ------------------------------------------------------------------ *)

Definition get_api_keys (environ : list (string * string))
  : outcome (list string) :=
  let keys :=
    (filter (λ kv, String.prefix "GEMINI_API_KEY" kv.1 = true)
            environ).*2 in
  match keys with
  | [] => Raise NoCredentials
  | _ => Return keys
  end.

(* ------------------------------------------------------------------ *)
(** * Routing *)
(* ------------------------------------------------------------------ *)

Section Router.
Context (W : world).

(** [time.time()] *)
Definition now : M float := λ s,
  (Return (time_time W (clock s)),
   {| disk := disk s; saves := saves s; clock := S (clock s);
      attempts := attempts s; stats := stats s;
      cooldowns := cooldowns s |}).

(** [genai.GenerativeModel(model).generate_content(prompt)] with [key]
    configured. *)
Definition remote (model key prompt : string) : M response := λ s,
  let s' := {| disk := disk s; saves := saves s; clock := clock s;
               attempts := attempts s ++ [(model, key)];
               stats := stats s; cooldowns := cooldowns s |} in
  match generate_content W (length (attempts s)) model key prompt with
  | Some resp => (Return resp, s')
  | None => (Raise RemoteError, s')
  end.

Definition append_stat (model : string) (e : Entry.t) : M unit := λ s,
  (Return tt,
   {| disk := disk s; saves := saves s; clock := clock s;
      attempts := attempts s; stats := stats_append (stats s) model e;
      cooldowns := cooldowns s |}).

Definition set_cooldown (model : string) (expiry : float) : M unit := λ s,
  (Return tt,
   {| disk := disk s; saves := saves s; clock := clock s;
      attempts := attempts s; stats := stats s;
      cooldowns := <[model := expiry]> (cooldowns s) |}).

Definition call_model (model key prompt : string) : M Reply.t :=
  start ← now;
  resp ← remote model key prompt;
  finish ← now;
  let latency := (finish - start)%float in
  let max_tokens := default 0%Z (max_output_tokens resp) in
  append_stat model (Entry.mk 1 latency (Some max_tokens));;
  save_stats;;
  mret (Reply.mk model latency max_tokens
                 (default (str resp) (text resp))).

(** [model in cooldowns and time.time() < cooldowns[model]]: the clock
    is read only when the model has an entry. *)
Definition cooling_down (model : string) : M bool :=
  s ← get_state;
  match cooldowns s !! model with
  | None => mret false
  | Some expiry => t ← now; mret (t <? expiry)%float
  end.

(** The [for key in keys] loop for one model: [Some reply] when the
    function returned from inside the loop, [None] when the loop ran
    to its end. *)
Fixpoint try_keys (model prompt : string) (keys : list string)
  : M (option Reply.t) :=
  match keys with
  | [] => mret None
  | key :: keys' =>
      r ← try (call_model model key prompt);
      match r with
      | inr reply => mret (Some reply)
      | inl _ =>
          t ← now;
          set_cooldown model (t + float_of_Z COOLDOWN_SECS)%float;;
          save_cooldowns;;
          try_keys model prompt keys'
      end
  end.

(** The [for model in order] loop. *)
Fixpoint walk (prompt : string) (keys order : list string)
  : M (option Reply.t) :=
  match order with
  | [] => mret None
  | model :: order' =>
      skip ← cooling_down model;
      if skip : bool then walk prompt keys order'
      else
        r ← try_keys model prompt keys;
        match r with
        | Some reply => mret (Some reply)
        | None => walk prompt keys order'
        end
  end.

(** The objects [route_request] sets up before it builds the order. *)
Definition load_all : M unit := λ s,
  (Return tt,
   {| disk := disk s; saves := saves s; clock := clock s;
      attempts := attempts s; stats := load_stats (disk s);
      cooldowns := load_cooldowns (disk s) |}).

Definition route_request (prompt : string) : M Reply.t :=
  match get_api_keys (environ W) with
  | Raise e => raise e
  | Return keys =>
      load_all;;
      s ← get_state;
      match assign_multi_tiers (stats s) with
      | None => raise (KeyError "tier_rank")
      | Some multi_tiers =>
          let order := build_order (load_state (disk s)) multi_tiers in
          r ← walk prompt keys order;
          match r with
          | Some reply => mret reply
          | None => raise NoBackendAvailable
          end
      end
  end.
End Router.

(* ================================================================== *)
(** * Properties *)
(* ================================================================== *)

(* ------------------------------------------------------------------ *)
(** ** Dictionaries built by successive assignments *)
(* ------------------------------------------------------------------ *)

Section DictFacts.
Context {V : Type}.
Implicit Types d : dict V.

Lemma set_fresh d k v :
  k ∉ PyDict.keys d → PyDict.set d k v = d ++ [(k, v)].
Proof.
  unfold PyDict.keys.
  induction d as [|[k' v'] d IH]; simpl; [done|]. intros Hk.
  apply not_elem_of_cons in Hk as [Hne Hk]. rewrite decide_False by done.
  f_equal. auto.
Qed.

Lemma keys_in_get d k : k ∈ PyDict.keys d → is_Some (PyDict.get d k).
Proof.
  intros Hk. destruct (PyDict.get d k) eqn:Hg; [by eexists|].
  by apply PyDict.get_None in Hg.
Qed.

End DictFacts.

(** A loop [for (k, v) in l: d[k] = v] leaves a well-formed dict; when
    the keys of [l] are new and listed once it appends [l]. *)
Section DictLoop.
Context {V : Type}.

Definition assign_all (d : dict V) (l : list (string * V)) : dict V :=
  foldl (λ d kv, PyDict.set d kv.1 kv.2) d l.

Lemma assign_all_wf l d : PyDict.wf d → PyDict.wf (assign_all d l).
Proof.
  revert d. induction l as [|[k x] l IH]; simpl; intros d Hd; [done|].
  apply IH. by apply PyDict.wf_set.
Qed.

Lemma assign_all_fresh l d :
  NoDup (PyDict.keys d ++ l.*1) → assign_all d l = d ++ l.
Proof.
  revert d. induction l as [|[k x] l IH]; simpl; intros d Hnd.
  - by rewrite app_nil_r.
  - apply NoDup_app in Hnd as (Hd & Hdl & Hl).
    apply NoDup_cons in Hl as [Hk Hl].
    assert (k ∉ PyDict.keys d) as Hkd.
    { intros Hin. apply (Hdl _ Hin). apply list_elem_of_here. }
    rewrite IH.
    + rewrite set_fresh by done. by rewrite <- app_assoc.
    + rewrite PyDict.keys_set_notin by done. rewrite <- app_assoc. simpl.
      apply NoDup_app. split_and!; [done| |by constructor].
      intros y Hy Hy'. apply elem_of_cons in Hy' as [->|Hy']; [done|].
      apply (Hdl _ Hy). by apply list_elem_of_further.
Qed.

Lemma assign_all_keys l d k :
  k ∈ PyDict.keys (assign_all d l) ↔ k ∈ PyDict.keys d ∨ k ∈ l.*1.
Proof.
  revert d. induction l as [|[k' x] l IH]; simpl; intros d.
  - rewrite elem_of_nil. tauto.
  - rewrite IH, elem_of_cons.
    destruct (decide (k' ∈ PyDict.keys d)) as [Hin|Hin].
    + rewrite PyDict.keys_set_in by done.
      split; [tauto|]. intros [?|[->|?]]; auto.
    + rewrite PyDict.keys_set_notin, elem_of_app, list_elem_of_singleton
        by done. tauto.
Qed.
End DictLoop.

Lemma foldl_assign_all {X V} (g : X → string * V)
    (f : dict V → X → dict V) (l : list X) (d : dict V) :
  (∀ d x, f d x = PyDict.set d (g x).1 (g x).2) →
  foldl f d l = assign_all d (g <$> l).
Proof.
  intros Hf. revert d. induction l as [|x l IH]; simpl; intros d; [done|].
  by rewrite IH, Hf.
Qed.

(* ------------------------------------------------------------------ *)
(** ** Rank positions and tier letters *)
(* ------------------------------------------------------------------ *)

Lemma Qltb_lt (x y : Q) : Qltb x y = true ↔ (x < y)%Q.
Proof.
  unfold Qltb. rewrite negb_true_iff. split.
  - intros Hb. apply Qnot_le_lt. intros Hle.
    apply Qle_bool_iff in Hle. congruence.
  - intros Hlt. destruct (Qle_bool y x) eqn:Hb; [|done].
    apply Qle_bool_iff in Hb. by apply Qlt_not_le in Hlt.
Qed.

(** The three comparisons of [tier_rank] in integers: [i < 0.2 n] is
    [5 i < n], [i < 0.5 n] is [2 i < n], [i < 0.8 n] is [5 i < 4 n]. *)
Lemma tier_letter_int (i n : nat) :
  tier_letter i n =
    if decide (5 * i < n) then tS
    else if decide (2 * i < n) then tA
    else if decide (5 * i < 4 * n) then tB
    else tC.
Proof.
  unfold tier_letter, Qltb, Qle_bool. cbn.
  repeat case_decide;
    repeat match goal with
    | |- context [Z.leb ?a ?b] => destruct (Z.leb_spec a b)
    end; simpl; try done; lia.
Qed.

Lemma Qltb_thresholds (i n : nat) :
  let qi := inject_Z (Z.of_nat i) in
  let qn := inject_Z (Z.of_nat n) in
  Qltb qi (qn * 0.2) = bool_decide (5 * i < n)
  ∧ Qltb qi (qn * 0.5) = bool_decide (2 * i < n)
  ∧ Qltb qi (qn * 0.8) = bool_decide (5 * i < 4 * n).
Proof.
  unfold Qltb, Qle_bool. cbn.
  split_and!; case_bool_decide;
    match goal with
    | |- context [Z.leb ?a ?b] => destruct (Z.leb_spec a b)
    end; simpl; try done; lia.
Qed.

Section TierRank.
Context {X : Type}.
Implicit Types rank_list : list (string * X).

Definition tier_item (n : nat) (ix : nat * (string * X)) : string * tier :=
  (ix.2.1, tier_letter ix.1 n).

Lemma enumerate_keys start rank_list n :
  (tier_item n <$> enumerate start rank_list).*1 = rank_list.*1.
Proof.
  revert start. induction rank_list as [|x l IH]; simpl; intros start.
  - done.
  - by rewrite IH.
Qed.

Lemma enumerate_lookup start rank_list i x :
  rank_list !! i = Some x →
  enumerate start rank_list !! i = Some (start + i, x).
Proof.
  revert start i. induction rank_list as [|y l IH]; intros start [|i] Hl;
    simplify_eq/=.
  - by rewrite Nat.add_0_r.
  - rewrite (IH (S start) i) by done. do 2 f_equal. lia.
Qed.

(** On a ranking that lists each model once, [tier_rank] pairs the
    models, in rank order, with the letters of their positions. *)
Lemma tier_rank_items rank_list :
  NoDup rank_list.*1 →
  tier_rank rank_list
  = tier_item (length rank_list) <$> enumerate 0 rank_list.
Proof.
  intros Hnd. unfold tier_rank.
  rewrite (foldl_assign_all (tier_item (length rank_list))).
  - rewrite assign_all_fresh; [done|]. simpl. by rewrite enumerate_keys.
  - by intros d [i [m x]].
Qed.

Lemma tier_rank_keys rank_list :
  NoDup rank_list.*1 → PyDict.keys (tier_rank rank_list) = rank_list.*1.
Proof.
  intros Hnd. rewrite tier_rank_items by done. apply enumerate_keys.
Qed.

Lemma tier_rank_get rank_list i m x :
  NoDup rank_list.*1 →
  rank_list !! i = Some (m, x) →
  PyDict.get (tier_rank rank_list) m
  = Some (tier_letter i (length rank_list)).
Proof.
  intros Hnd Hi. apply PyDict.get_wf_in.
  - unfold PyDict.wf. by rewrite tier_rank_keys.
  - rewrite tier_rank_items by done.
    apply list_elem_of_fmap. exists (i, (m, x)). split; [done|].
    apply list_elem_of_lookup. exists i.
    by rewrite (enumerate_lookup 0 _ _ _ Hi).
Qed.
End TierRank.

(** The binary64 products of CPython put every position of every ranking
    of up to 200 backends in the same tier as the exact thresholds. *)
Lemma tier_letter_f64_agrees :
  forallb (λ n,
             forallb (λ i,
                        bool_decide (tier_letter_f64 i n = tier_letter i n))
                     (seq 0 n))
          (seq 0 201) = true.
Proof. vm_compute. reflexivity. Qed.

Lemma tier_letter_f64_eq (i n : nat) :
  i < n → n ≤ 200 → tier_letter_f64 i n = tier_letter i n.
Proof.
  intros Hi Hn. pose proof tier_letter_f64_agrees as Hall.
  rewrite forallb_forall in Hall.
  assert (In n (seq 0 201)) as Hn' by (apply in_seq; lia).
  apply Hall in Hn'. rewrite forallb_forall in Hn'.
  assert (In i (seq 0 n)) as Hi' by (apply in_seq; lia).
  apply Hn' in Hi'. by apply bool_decide_eq_true in Hi'.
Qed.

(** C5.  For every ranking of [n] backends (a list in which each backend
    occurs once), [tier_rank] gives the backend at 0-indexed position [i]
    the letter S when [i < 0.2 n], else A when [i < 0.5 n], else B when
    [i < 0.8 n], else C, where the comparisons are the plain [<] on the
    numbers (in integers: [5 i < n], [2 i < n], [5 i < 4 n]); the result
    has exactly the backends of the ranking as keys, each once, so every
    backend has exactly one letter.  For rankings of up to 200 backends
    the comparisons on binary64 products give the same letters. *)
Theorem C5_tier_by_rank_position {X} (rank_list : list (string * X)) :
  NoDup rank_list.*1 →
  let n := length rank_list in
  let q (k : nat) : Q := inject_Z (Z.of_nat k) in
  (∀ i m x, rank_list !! i = Some (m, x) →
     PyDict.get (tier_rank rank_list) m = Some (tier_letter i n))
  ∧ (∀ i,
       (tier_letter i n = tS ↔ (q i < q n * 0.2)%Q)
       ∧ (tier_letter i n = tA ↔ ¬ (q i < q n * 0.2)%Q ∧ (q i < q n * 0.5)%Q)
       ∧ (tier_letter i n = tB ↔ ¬ (q i < q n * 0.5)%Q ∧ (q i < q n * 0.8)%Q)
       ∧ (tier_letter i n = tC ↔ ¬ (q i < q n * 0.8)%Q))
  ∧ (∀ i,
       (tier_letter i n = tS ↔ 5 * i < n)
       ∧ (tier_letter i n = tA ↔ n ≤ 5 * i ∧ 2 * i < n)
       ∧ (tier_letter i n = tB ↔ n ≤ 2 * i ∧ 5 * i < 4 * n)
       ∧ (tier_letter i n = tC ↔ 4 * n ≤ 5 * i))
  ∧ PyDict.keys (tier_rank rank_list) = rank_list.*1
  ∧ (∀ m, m ∈ rank_list.*1 →
       ∃ t, PyDict.get (tier_rank rank_list) m = Some t
            ∧ ∀ t', (m, t') ∈ tier_rank rank_list → t' = t)
  ∧ (∀ i, i < n → n ≤ 200 → tier_letter_f64 i n = tier_letter i n).
Proof.
  intros Hnd n q. split_and!; [..|intros i; apply tier_letter_f64_eq].
  - intros i m x Hi. by apply tier_rank_get with x.
  - intros i. unfold q. rewrite <- !Qltb_lt.
    destruct (Qltb_thresholds i n) as (-> & -> & ->).
    rewrite !bool_decide_eq_true, tier_letter_int.
    repeat case_decide; repeat split; try done; try lia; intros [? ?]; lia.
  - intros i. rewrite tier_letter_int. repeat case_decide;
      repeat split; try done; try lia; intros [? ?]; lia.
  - by apply tier_rank_keys.
  - intros m Hm. apply list_elem_of_fmap in Hm as ([m' x] & -> & Hin).
    apply list_elem_of_lookup in Hin as [i Hi]. simpl.
    exists (tier_letter i n). split; [by apply tier_rank_get with x|].
    intros t' Ht'. apply PyDict.get_wf_in in Ht'.
    + rewrite (tier_rank_get _ i m' x) in Ht' by done. by simplify_eq.
    + unfold PyDict.wf. by rewrite tier_rank_keys.
Qed.


(* ------------------------------------------------------------------ *)
(** ** Derived metrics *)
(* ------------------------------------------------------------------ *)



(** The mean of a list of floats, as [sum(l)/len(l)]. *)
Definition mean (l : list float) : float :=
  (sum_float l / float_of_Z (Z.of_nat (length l)))%float.


(* ------------------------------------------------------------------ *)
(** ** One attempt *)
(* ------------------------------------------------------------------ *)

Section Attempts.
Context (W : world) (prompt : string).

(** A reading of the clock. *)
Definition tick (s : state) : state :=
  {| disk := disk s; saves := saves s; clock := S (clock s);
     attempts := attempts s; stats := stats s; cooldowns := cooldowns s |}.

(** What [call_model] measures, records and returns when the remote
    call made in state [s] answers [resp]. *)
Definition elapsed (s : state) : float :=
  (time_time W (S (clock s)) - time_time W (clock s))%float.

Definition record_of (s : state) (resp : response) : Entry.t :=
  Entry.mk 1 (elapsed s) (Some (default 0%Z (max_output_tokens resp))).

Definition reply_of (s : state) (model : string) (resp : response)
  : Reply.t :=
  Reply.mk model (elapsed s) (default 0%Z (max_output_tokens resp))
           (default (str resp) (text resp)).

Definition after_success (s : state) (model key : string)
    (resp : response) : state :=
  let stats' := stats_append (stats s) model (record_of s resp) in
  {| disk := {| STATS_FILE := Some stats';
                STATE_FILE := STATE_FILE (disk s);
                COOLDOWN_FILE := COOLDOWN_FILE (disk s) |};
     saves := saves s ++ [save_stats_ev stats'];
     clock := S (S (clock s));
     attempts := attempts s ++ [(model, key)];
     stats := stats';
     cooldowns := cooldowns s |}.

(** The state after a failed attempt and the [except] branch. *)
Definition expiry_of (s : state) : float :=
  (time_time W (S (clock s)) + float_of_Z COOLDOWN_SECS)%float.

Definition after_failure (s : state) (model key : string) : state :=
  let cooldowns' := <[model := expiry_of s]> (cooldowns s) in
  {| disk := {| STATS_FILE := STATS_FILE (disk s);
                STATE_FILE := STATE_FILE (disk s);
                COOLDOWN_FILE := Some cooldowns' |};
     saves := saves s ++ [save_cooldowns_ev cooldowns'];
     clock := S (S (clock s));
     attempts := attempts s ++ [(model, key)];
     stats := stats s;
     cooldowns := cooldowns' |}.

Lemma call_model_success s model key resp :
  generate_content W (length (attempts s)) model key prompt = Some resp →
  call_model W model key prompt s
  = (Return (reply_of s model resp), after_success s model key resp).
Proof.
  intros Hgc. unfold call_model, mbind, M_bind, now, remote; simpl.
  by rewrite Hgc.
Qed.

Lemma call_model_failure s model key :
  generate_content W (length (attempts s)) model key prompt = None →
  call_model W model key prompt s
  = (Raise RemoteError,
     {| disk := disk s; saves := saves s; clock := S (clock s);
        attempts := attempts s ++ [(model, key)];
        stats := stats s; cooldowns := cooldowns s |}).
Proof.
  intros Hgc. unfold call_model, mbind, M_bind, now, remote; simpl.
  by rewrite Hgc.
Qed.

Lemma try_keys_cons s model key keys :
  try_keys W model prompt (key :: keys) s
  = match generate_content W (length (attempts s)) model key prompt with
    | Some resp =>
        (Return (Some (reply_of s model resp)),
         after_success s model key resp)
    | None => try_keys W model prompt keys (after_failure s model key)
    end.
Proof.
  simpl. unfold mbind at 1, M_bind at 1, try.
  destruct (generate_content W (length (attempts s)) model key prompt)
    as [resp|] eqn:Hgc.
  - by rewrite (call_model_success _ _ _ _ Hgc).
  - by rewrite (call_model_failure _ _ _ Hgc).
Qed.

(** The cooldown test of the walk: the outcome and whether the clock
    was read. *)
Definition is_cooling (s : state) (model : string) : bool :=
  match cooldowns s !! model with
  | Some expiry => (time_time W (clock s) <? expiry)%float
  | None => false
  end.

Definition checked (s : state) (model : string) : state :=
  match cooldowns s !! model with
  | Some _ => tick s
  | None => s
  end.

Lemma cooling_down_eq s model :
  cooling_down W model s = (Return (is_cooling s model), checked s model).
Proof.
  unfold cooling_down, is_cooling, checked, mbind, M_bind, get_state.
  by destruct (cooldowns s !! model).
Qed.

Lemma walk_cons keys model order s :
  walk W prompt keys (model :: order) s
  = if is_cooling s model
    then walk W prompt keys order (checked s model)
    else match try_keys W model prompt keys (checked s model) with
         | (Return (Some reply), s') => (Return (Some reply), s')
         | (Return None, s') => walk W prompt keys order s'
         | (Raise e, s') => (Raise e, s')
         end.
Proof.
  simpl. unfold mbind at 1, M_bind at 1. rewrite cooling_down_eq.
  destruct (is_cooling s model); [done|].
  unfold mbind, M_bind.
  by destruct (try_keys W model prompt keys (checked s model))
    as [[[reply|]|e] s'].
Qed.
End Attempts.

(* ------------------------------------------------------------------ *)
(** ** The walk *)
(* ------------------------------------------------------------------ *)

Section Walk.
Context (W : world) (prompt : string).

(** The steps of a walk before its first success: a clock reading of a
    cooldown test, or a failed attempt with its [except] branch. *)
Inductive quiet_step : state → state → Prop :=
| quiet_tick s : quiet_step s (tick s)
| quiet_fail s model key :
    generate_content W (length (attempts s)) model key prompt = None →
    quiet_step s (after_failure W s model key).

Definition quiet : relation state := rtc quiet_step.

(** What a run of such steps from [s] to [s'] has done, [new] being the
    attempts it made and [cw] its calls of [save_json]. *)
Record quiet_facts (s s' : state) (new : list (string * string))
    (cw : list save) : Prop := {
  qf_attempts : attempts s' = attempts s ++ new;
  qf_failed : ∀ i a, new !! i = Some a →
    generate_content W (length (attempts s) + i) a.1 a.2 prompt = None;
  qf_stats : stats s' = stats s;
  qf_stats_file : STATS_FILE (disk s') = STATS_FILE (disk s);
  qf_state_file : STATE_FILE (disk s') = STATE_FILE (disk s);
  qf_saves : saves s' = saves s ++ cw;
  qf_saves_kind : Forall (λ w, is_save_cooldowns w = true) cw;
  qf_saves_count : length cw = length new;
  qf_saved : ∀ i a, new !! i = Some a →
    ∃ c n, cw !! i = Some (save_cooldowns_ev c)
           ∧ c !! a.1
             = Some (time_time W n + float_of_Z COOLDOWN_SECS)%float;
  qf_sync :
    match new with
    | [] => cooldowns s' = cooldowns s
            ∧ COOLDOWN_FILE (disk s') = COOLDOWN_FILE (disk s)
    | _ => COOLDOWN_FILE (disk s') = Some (cooldowns s')
    end;
  qf_others : ∀ m, m ∉ new.*1 → cooldowns s' !! m = cooldowns s !! m;
  qf_cooled : ∀ m, m ∈ new.*1 → is_Some (cooldowns s' !! m);
}.

Lemma quiet_inv s s' : quiet s s' → ∃ new cw, quiet_facts s s' new cw.
Proof.
  induction 1 as [s|s s1 s' Hstep _ (new & cw & IH)].
  - exists [], []. split; rewrite ?app_nil_r; try done.
    intros m Hm. by apply elem_of_nil in Hm.
  - destruct IH. destruct Hstep as [s|s model key Hgc]; simpl in *.
    + exists new, cw. by split.
    + exists ((model, key) :: new), (save_cooldowns_ev
        (<[model := expiry_of W s]> (cooldowns s)) :: cw).
      split; simpl; rewrite <- ?app_assoc in *; try done.
      * intros [|i] a Ha; simplify_eq/=.
        -- by rewrite Nat.add_0_r.
        -- rewrite <- (qf_failed0 i a Ha), length_app. simpl.
           f_equal. lia.
      * by constructor.
      * by rewrite qf_saves_count0.
      * intros [|i] a Ha; simplify_eq/=; [|by apply qf_saved0].
        eexists _, (S (clock s)). split; [done|].
        by rewrite lookup_insert_eq.
      * destruct new; [|done]. destruct qf_sync0 as [-> ->]. done.
      * intros m Hm. apply not_elem_of_cons in Hm as [Hne Hm].
        rewrite qf_others0 by done. by rewrite lookup_insert_ne.
      * intros m Hm. destruct (decide (m ∈ new.*1)) as [Hin|Hin]; [auto|].
        rewrite qf_others0 by done.
        apply elem_of_cons in Hm as [->|Hm]; [|done].
        rewrite lookup_insert_eq. by eexists.
Qed.

Lemma quiet_checked s model : quiet s (checked s model).
Proof.
  unfold checked. destruct (cooldowns s !! model).
  - apply rtc_once. constructor.
  - apply rtc_refl.
Qed.

(** The [for key in keys] loop: failed attempts with the keys [tried],
    in order, then either the end of the keys or a success with the
    next one, which is returned at once. *)
Lemma try_keys_spec model keys s r s' :
  try_keys W model prompt keys s = (r, s') →
  ∃ s1 tried,
    quiet s s1 ∧ attempts s1 = attempts s ++ (pair model <$> tried)
    ∧ match r with
      | Return None => s' = s1 ∧ tried = keys
      | Return (Some reply) =>
          ∃ key rest resp,
            keys = tried ++ key :: rest
            ∧ generate_content W (length (attempts s1)) model key prompt
              = Some resp
            ∧ s' = after_success W s1 model key resp
            ∧ reply = reply_of W s1 model resp
      | Raise _ => False
      end.
Proof.
  revert s. induction keys as [|key keys IH]; intros s.
  - simpl. intros [= <- <-]. exists s, []. simpl.
    rewrite app_nil_r. split_and!; done.
  - rewrite try_keys_cons.
    destruct (generate_content W (length (attempts s)) model key prompt)
      as [resp|] eqn:Hgc.
    + intros [= <- <-]. exists s, []. simpl. rewrite app_nil_r.
      split_and!; [done..|]. by exists key, keys, resp.
    + intros Hrun. destruct (IH _ Hrun) as (s1 & tried & Hq & Hatt & Hr).
      exists s1, (key :: tried). split_and!.
      * eapply rtc_l; [|done]. by constructor.
      * rewrite Hatt. simpl. by rewrite <- app_assoc.
      * destruct r as [[reply|]|e]; [|by destruct Hr as [-> ->]|done].
        destruct Hr as (key' & rest & resp & -> & ? & ? & ?).
        by exists key', rest, resp.
Qed.

(** The [for model in order] loop: only failed attempts and cooldown
    tests, then either the end of the order or the first success. *)
Lemma walk_spec keys order s r s' :
  walk W prompt keys order s = (r, s') →
  ∃ s1,
    quiet s s1
    ∧ match r with
      | Return None => s' = s1
      | Return (Some reply) =>
          ∃ model key resp,
            model ∈ order ∧ key ∈ keys
            ∧ generate_content W (length (attempts s1)) model key prompt
              = Some resp
            ∧ s' = after_success W s1 model key resp
            ∧ reply = reply_of W s1 model resp
      | Raise _ => False
      end.
Proof.
  revert s. induction order as [|model order IH]; intros s.
  - simpl. intros [= <- <-]. by exists s.
  - rewrite walk_cons. pose proof (quiet_checked s model) as Hck.
    assert (∀ s0, quiet s s0 →
              walk W prompt keys order s0 = (r, s') →
              ∃ s1, quiet s s1 ∧
                match r with
                | Return None => s' = s1
                | Return (Some reply) =>
                    ∃ model0 key resp,
                      model0 ∈ model :: order ∧ key ∈ keys
                      ∧ generate_content W (length (attempts s1)) model0
                          key prompt = Some resp
                      ∧ s' = after_success W s1 model0 key resp
                      ∧ reply = reply_of W s1 model0 resp
                | Raise _ => False
                end) as Hrest.
    { intros s0 Hq0 Hrun. destruct (IH _ Hrun) as (s1 & Hq & Hr).
      exists s1. split; [by etrans|].
      destruct r as [[reply|]|e]; [|done..].
      destruct Hr as (model0 & key & resp & ? & ? & ? & ? & ?).
      exists model0, key, resp. split_and!; try done.
      by apply list_elem_of_further. }
    destruct (is_cooling W s model); [by apply Hrest|].
    destruct (try_keys W model prompt keys (checked s model))
      as [r1 s2] eqn:Htk.
    apply try_keys_spec in Htk as (s1 & tried & Hq & Hatt & Hr1).
    destruct r1 as [[reply|]|e]; [| |done].
    + intros [= <- <-]. exists s1. split; [by etrans|].
      destruct Hr1 as (key & rest & resp & -> & ? & ? & ?).
      exists model, key, resp. split_and!; try done.
      * apply list_elem_of_here.
      * apply elem_of_app. right. apply list_elem_of_here.
    + destruct Hr1 as [-> ->]. apply Hrest. by etrans.
Qed.

Lemma walk_app keys order1 order2 s :
  walk W prompt keys (order1 ++ order2) s
  = match walk W prompt keys order1 s with
    | (Return None, s1) => walk W prompt keys order2 s1
    | other => other
    end.
Proof.
  revert s. induction order1 as [|model order1 IH]; intros s; [done|].
  rewrite <- app_comm_cons, !walk_cons.
  destruct (is_cooling W s model); [apply IH|].
  destruct (try_keys W model prompt keys (checked s model))
    as [[[reply|]|e] s1]; [done|apply IH|done].
Qed.

Lemma checked_attempts s model :
  attempts (checked s model) = attempts s.
Proof. unfold checked. by destruct (cooldowns s !! model). Qed.

(** The attempts of the key loop are on [model], with a prefix of the
    keys. *)
Lemma try_keys_attempts model keys s r s' :
  try_keys W model prompt keys s = (r, s') →
  ∃ tried, tried `prefix_of` keys
           ∧ attempts s' = attempts s ++ (pair model <$> tried).
Proof.
  intros Hrun. apply try_keys_spec in Hrun as (s1 & tried & _ & Hatt & Hr).
  destruct r as [[reply|]|e]; [| |done].
  - destruct Hr as (key & rest & resp & -> & _ & -> & _).
    exists (tried ++ [key]). split.
    + apply prefix_app, prefix_cons, prefix_nil.
    + simpl. rewrite Hatt, fmap_app, <- app_assoc. done.
  - destruct Hr as [-> ->]. by exists keys.
Qed.

(** The attempts of a walk are on models of the order with configured
    keys, and are pairwise distinct when the order and the keys are. *)
Lemma walk_attempts keys order s r s' :
  walk W prompt keys order s = (r, s') →
  ∃ new, attempts s' = attempts s ++ new
         ∧ (∀ a, a ∈ new → a.1 ∈ order ∧ a.2 ∈ keys)
         ∧ (NoDup order → NoDup keys → NoDup new).
Proof.
  revert s. induction order as [|model order IH]; intros s.
  - simpl. intros [= <- <-]. exists []. rewrite app_nil_r.
    split_and!; [done| |constructor].
    intros a Ha. by apply elem_of_nil in Ha.
  - rewrite walk_cons.
    assert (∀ s0 pre,
              attempts s0 = attempts s ++ (pair model <$> pre) →
              pre `prefix_of` keys →
              walk W prompt keys order s0 = (r, s') →
              ∃ new, attempts s' = attempts s ++ new
                ∧ (∀ a, a ∈ new → a.1 ∈ model :: order ∧ a.2 ∈ keys)
                ∧ (NoDup (model :: order) → NoDup keys → NoDup new))
      as Hrest.
    { intros s0 pre Hs0 [rest ->] Hrun.
      destruct (IH _ Hrun) as (new & Hatt & Hin & Hnd).
      exists ((pair model <$> pre) ++ new). split_and!.
      - by rewrite Hatt, Hs0, <- app_assoc.
      - intros a Ha. apply elem_of_app in Ha as [Ha|Ha].
        + apply list_elem_of_fmap in Ha as (k & -> & Hk). simpl. split.
          * apply list_elem_of_here.
          * apply elem_of_app. by left.
        + destruct (Hin _ Ha). split; [by apply list_elem_of_further|done].
      - intros Hmo Hkeys. apply NoDup_cons in Hmo as [Hm Ho].
        apply NoDup_app. split_and!.
        + apply NoDup_fmap_2; [by intros ?? [=]|].
          by apply NoDup_app in Hkeys as (? & _ & _).
        + intros a Ha Ha'.
          apply list_elem_of_fmap in Ha as (k & -> & _).
          by apply Hin in Ha' as [? _].
        + by apply Hnd. }
    destruct (is_cooling W s model).
    { apply (Hrest _ []); [|apply prefix_nil].
      by rewrite checked_attempts, app_nil_r. }
    destruct (try_keys W model prompt keys (checked s model))
      as [r1 s2] eqn:Htk.
    pose proof Htk as Hspec.
    apply try_keys_attempts in Htk as (tried & Hpre & Hatt).
    rewrite checked_attempts in Hatt.
    apply try_keys_spec in Hspec as (s1 & tried1 & _ & _ & Hr1).
    destruct r1 as [[reply|]|e]; [| |done].
    + intros [= <- <-]. exists (pair model <$> tried). split_and!; [done| |].
      * intros a Ha. apply list_elem_of_fmap in Ha as (k & -> & Hk).
        simpl. split; [apply list_elem_of_here|].
        destruct Hpre as [rest ->]. apply elem_of_app. by left.
      * intros _ Hkeys. apply NoDup_fmap_2; [by intros ?? [=]|].
        destruct Hpre as [rest ->]. by apply NoDup_app in Hkeys as (? & _ & _).
    + destruct Hr1 as [-> _]. by apply (Hrest _ tried).
Qed.
End Walk.

(* ------------------------------------------------------------------ *)
(** ** The classifier on a loaded store *)
(* ------------------------------------------------------------------ *)

Lemma load_stats_assign fs :
  load_stats fs
  = assign_all PyDict.empty
      (prod_map id (deque ROLLING_WINDOW)
         <$> load_json (STATS_FILE fs) PyDict.empty).
Proof. unfold load_stats. apply foldl_assign_all. by intros d [m es]. Qed.

Lemma load_stats_wf fs : PyDict.wf (load_stats fs).
Proof. rewrite load_stats_assign. apply assign_all_wf, PyDict.wf_empty. Qed.

Lemma metrics_of_assign stats :
  metrics_of stats = assign_all PyDict.empty (prod_map id derive <$> stats).
Proof. unfold metrics_of. apply foldl_assign_all. by intros d [m es]. Qed.

Lemma metrics_of_wf stats : PyDict.wf (metrics_of stats).
Proof. rewrite metrics_of_assign. apply assign_all_wf, PyDict.wf_empty. Qed.

Lemma metrics_of_keys stats m :
  m ∈ PyDict.keys (metrics_of stats) ↔ m ∈ PyDict.keys stats.
Proof.
  rewrite metrics_of_assign, assign_all_keys. unfold PyDict.keys at 1. simpl.
  rewrite elem_of_nil, <- list_fmap_compose.
  replace (fst ∘ prod_map id derive) with (@fst string (list Entry.t));
    [|done].
  unfold PyDict.keys. tauto.
Qed.

(** On a well-formed store, [metrics] lists the models in store order. *)
Lemma metrics_of_items stats :
  PyDict.wf stats → metrics_of stats = prod_map id derive <$> stats.
Proof.
  intros Hwf. rewrite metrics_of_assign, assign_all_fresh; [done|].
  simpl. rewrite <- list_fmap_compose. apply Hwf.
Qed.

(** A ranking is a rearrangement of [metrics]: every model once. *)
Section Rankings.
Context {K : Type} (lt : K → K → bool) (key : string * Metric.t → K).

Lemma ranking_keys_perm (metrics : dict Metric.t) :
  (sorted lt key metrics).*1 ≡ₚ PyDict.keys metrics.
Proof. unfold PyDict.keys. by rewrite sorted_Permutation. Qed.

Lemma ranking_NoDup (metrics : dict Metric.t) :
  PyDict.wf metrics → NoDup (sorted lt key metrics).*1.
Proof. intros Hwf. by rewrite ranking_keys_perm. Qed.

Lemma ranking_tier_is_Some stats m :
  m ∈ PyDict.keys stats →
  is_Some (PyDict.get (tier_rank (sorted lt key (metrics_of stats))) m).
Proof.
  intros Hm. apply keys_in_get.
  rewrite tier_rank_keys by apply ranking_NoDup, metrics_of_wf.
  rewrite ranking_keys_perm. by apply metrics_of_keys.
Qed.
End Rankings.

(** [assign_multi_tiers] never raises: it returns one entry per model of
    the store, in store order, whose three letters are those of
    [tier_rank] on the three rankings. *)
Lemma assign_multi_tiers_total stats :
  ∃ multi_tiers,
    assign_multi_tiers stats = Some multi_tiers
    ∧ multi_tiers.*1 = PyDict.keys stats
    ∧ ∀ m t, (m, t) ∈ multi_tiers →
        let metrics := metrics_of stats in
        PyDict.get (tier_rank (fast_rank metrics)) m = Some (fast t)
        ∧ PyDict.get (tier_rank (quality_rank metrics)) m = Some (quality t)
        ∧ PyDict.get (tier_rank (balance_rank metrics)) m = Some (balance t).
Proof.
  unfold assign_multi_tiers.
  set (f := λ m : string, _).
  assert (Forall (is_Some ∘ f) (PyDict.keys stats)) as Hall.
  { apply Forall_forall. intros m Hm. unfold f. simpl.
    destruct (ranking_tier_is_Some PrimFloat.ltb
                (λ x, Metric.latency x.2) stats m Hm) as [tf Hf].
    destruct (ranking_tier_is_Some Z.ltb
                (λ x, (- Metric.max_tokens x.2)%Z) stats m Hm) as [tq Hq].
    destruct (ranking_tier_is_Some PrimFloat.ltb
                (λ x, balance_key x.2) stats m Hm) as [tb Hb].
    unfold fast_rank, quality_rank, balance_rank.
    rewrite Hf, Hq, Hb. simpl. by eexists. }
  apply mapM_is_Some_2 in Hall as [multi_tiers Hmt].
  exists multi_tiers. split; [done|].
  apply mapM_Some in Hmt.
  induction Hmt as [|m [m' t] ks mts Hfm _ [IHk IHt]]; [split; [done|]|].
  - intros m t Hin. by apply elem_of_nil in Hin.
  - unfold f in Hfm.
    destruct (PyDict.get (tier_rank (fast_rank (metrics_of stats))) m)
      as [tf|] eqn:Hf; [|done]. simpl in Hfm.
    destruct (PyDict.get (tier_rank (quality_rank (metrics_of stats))) m)
      as [tq|] eqn:Hq; [|done]. simpl in Hfm.
    destruct (PyDict.get (tier_rank (balance_rank (metrics_of stats))) m)
      as [tb|] eqn:Hb; [|done]. simpl in Hfm. simplify_eq.
    split; [simpl; by f_equal|].
    intros m t Hin. apply elem_of_cons in Hin as [?|Hin]; [|by apply IHt].
    by simplify_eq.
Qed.

(* ------------------------------------------------------------------ *)
(** ** The candidate order *)
(* ------------------------------------------------------------------ *)

Lemma filter_ext_elem {A} (P Q : A → Prop) `{!∀ x, Decision (P x)}
    `{!∀ x, Decision (Q x)} (l : list A) :
  (∀ x, x ∈ l → P x ↔ Q x) → filter P l = filter Q l.
Proof.
  induction l as [|a l IH]; intros Hpq; [done|].
  rewrite !filter_cons. rewrite IH.
  - destruct (decide (P a)) as [Hp|Hp], (decide (Q a)) as [Hq|Hq]; try done;
      exfalso; apply (Hpq a (list_elem_of_here _ _)) in Hp || apply Hp;
      try done; by apply (Hpq a (list_elem_of_here _ _)).
  - intros x Hx. apply Hpq. by apply list_elem_of_further.
Qed.

Section Order.
Context (lock : option string) (multi_tiers : dict tiers3).
Hypothesis multi_tiers_wf : PyDict.wf multi_tiers.

(** The locked model, as a list. *)
Definition locked : list string :=
  match lock_set lock with Some m => [m] | None => [] end.

(** The models of a balance tier other than the locked one, in the
    iteration order of [multi_tiers]. *)
Definition in_tier (tier : tier) : list string :=
  (filter (λ mt, balance mt.2 = tier ∧ mt.1 ∉ locked) multi_tiers).*1.

Lemma in_tier_elem m tier :
  m ∈ in_tier tier
  ↔ ∃ t, (m, t) ∈ multi_tiers ∧ balance t = tier ∧ m ∉ locked.
Proof.
  unfold in_tier. rewrite list_elem_of_fmap. split.
  - intros ([m' t] & -> & Hin).
    apply list_elem_of_filter in Hin as [[Hb Hl] Hin]. by exists t.
  - intros (t & Hin & Hb & Hl). exists (m, t). split; [done|].
    by apply list_elem_of_filter.
Qed.

Lemma multi_tiers_functional m t t' :
  (m, t) ∈ multi_tiers → (m, t') ∈ multi_tiers → t = t'.
Proof.
  intros H1 H2. apply PyDict.get_wf_in in H1, H2; [|done..]. congruence.
Qed.

Lemma in_tier_disjoint m tier tier' :
  m ∈ in_tier tier → m ∈ in_tier tier' → tier = tier'.
Proof.
  rewrite !in_tier_elem. intros (t & Hin & <- & _) (t' & Hin' & <- & _).
  by rewrite (multi_tiers_functional _ _ _ Hin Hin').
Qed.

Lemma in_tier_NoDup tier : NoDup (in_tier tier).
Proof.
  unfold in_tier. eapply sublist_NoDup; [apply multi_tiers_wf|].
  apply fmap_sublist, sublist_filter.
Qed.

(** One round of the tier loop, when no model of the tier has been
    placed except a locked one. *)
Lemma extend_tier_in_tier order tier :
  (∀ m t, (m, t) ∈ multi_tiers → balance t = tier →
          m ∈ order ↔ m ∈ locked) →
  extend_tier multi_tiers order tier = order ++ in_tier tier.
Proof.
  intros Hplaced. unfold extend_tier, in_tier. do 2 f_equal.
  apply filter_ext_elem. intros [m t] Hin. simpl.
  split; intros [Hb Hm]; (split; [done|]);
    by rewrite (Hplaced m t Hin Hb) in *.
Qed.

Lemma build_order_tiers :
  build_order lock multi_tiers
  = locked ++ in_tier tS ++ in_tier tA ++ in_tier tB ++ in_tier tC.
Proof.
  unfold build_order. fold locked. simpl.
  assert (∀ m t tier, (m, t) ∈ multi_tiers → balance t = tier →
            ∀ tier', tier' ≠ tier → m ∉ in_tier tier') as Hother.
  { intros m t tier Hin Hb tier' Hne Hin'. apply Hne.
    apply (in_tier_disjoint m); [done|]. apply in_tier_elem.
    exists t. split_and!; [done..|].
    apply in_tier_elem in Hin' as (_ & _ & _ & ?). done. }
  rewrite (extend_tier_in_tier locked tS) by done.
  rewrite (extend_tier_in_tier _ tA).
  2:{ intros m t Hin Hb. rewrite elem_of_app.
      pose proof (Hother m t tA Hin Hb tS). naive_solver. }
  rewrite (extend_tier_in_tier _ tB).
  2:{ intros m t Hin Hb. rewrite !elem_of_app.
      pose proof (Hother m t tB Hin Hb tS).
      pose proof (Hother m t tB Hin Hb tA). naive_solver. }
  rewrite (extend_tier_in_tier _ tC).
  2:{ intros m t Hin Hb. rewrite !elem_of_app.
      pose proof (Hother m t tC Hin Hb tS).
      pose proof (Hother m t tC Hin Hb tA).
      pose proof (Hother m t tC Hin Hb tB). naive_solver. }
  by rewrite <- !app_assoc.
Qed.

Lemma build_order_elem m :
  m ∈ build_order lock multi_tiers
  ↔ lock_set lock = Some m ∨ m ∈ PyDict.keys multi_tiers.
Proof.
  rewrite build_order_tiers, !elem_of_app, !in_tier_elem.
  assert (m ∈ locked ↔ lock_set lock = Some m) as ->.
  { unfold locked. destruct (lock_set lock) as [x|].
    - rewrite list_elem_of_singleton. naive_solver.
    - rewrite elem_of_nil. naive_solver. }
  unfold PyDict.keys. rewrite list_elem_of_fmap. split.
  - intros [?|[(t & ? & _)|[(t & ? & _)|[(t & ? & _)|(t & ? & _)]]]];
      [by left|right; by exists (m, t)..].
  - intros [?|([m' t] & -> & Hin)]; [by left|]. simpl.
    destruct (decide (lock_set lock = Some m')) as [|Hl]; [by left|].
    right. assert (m' ∉ locked) as Hnl.
    { unfold locked. destruct (lock_set lock) as [x|].
      - rewrite list_elem_of_singleton. naive_solver.
      - apply not_elem_of_nil. }
    destruct (balance t) eqn:Hb; eauto 10.
Qed.

Lemma build_order_NoDup : NoDup (build_order lock multi_tiers).
Proof.
  rewrite build_order_tiers.
  assert (∀ m tier, m ∈ locked → m ∉ in_tier tier) as Hlocked.
  { intros m tier Hm Hin. by apply in_tier_elem in Hin as (_ & _ & _ & ?). }
  assert (∀ m tier tier', tier ≠ tier' → m ∈ in_tier tier →
            m ∉ in_tier tier') as Hdis.
  { intros m tier tier' Hne H1 H2. by apply Hne, (in_tier_disjoint m). }
  assert (NoDup locked) as Hl.
  { unfold locked. destruct (lock_set lock); [apply NoDup_singleton|].
    constructor. }
  repeat (apply NoDup_app; split_and!);
    try apply in_tier_NoDup; try done.
  all: intros m Hm; rewrite ?elem_of_app; intros Hx; decompose [or] Hx;
    match goal with
    | Hy : m ∈ in_tier _ |- _ =>
        first [ by eapply Hlocked
              | exfalso; eapply (λ H, Hdis m _ _ H Hm Hy); done ]
    end.
Qed.
End Order.

(* ------------------------------------------------------------------ *)
(** ** One call of [route_request] *)
(* ------------------------------------------------------------------ *)

(** The state after the four loads of [route_request]. *)
Definition loaded (fs : files) : state :=
  {| disk := fs; saves := []; clock := 0; attempts := [];
     stats := load_stats fs; cooldowns := load_cooldowns fs |}.

(** The candidate order [route_request] builds from the files. *)
Definition candidate_order (fs : files) : option (list string) :=
  multi_tiers ← assign_multi_tiers (load_stats fs);
  Some (build_order (load_state fs) multi_tiers).

Lemma candidate_order_total fs :
  ∃ multi_tiers,
    assign_multi_tiers (load_stats fs) = Some multi_tiers
    ∧ PyDict.wf multi_tiers
    ∧ PyDict.keys multi_tiers = PyDict.keys (load_stats fs)
    ∧ candidate_order fs = Some (build_order (load_state fs) multi_tiers).
Proof.
  destruct (assign_multi_tiers_total (load_stats fs)) as (mt & Hmt & Hk & _).
  exists mt. unfold candidate_order, PyDict.wf, PyDict.keys. rewrite Hmt, Hk.
  split_and!; try done. apply load_stats_wf.
Qed.

Section Route.
Context (W : world) (prompt : string).

Lemma route_request_no_keys fs e :
  get_api_keys (environ W) = Raise e →
  route_request W prompt (boot fs) = (Raise e, boot fs).
Proof. intros Hk. unfold route_request. by rewrite Hk. Qed.

Lemma route_request_run fs keys :
  get_api_keys (environ W) = Return keys →
  ∃ order,
    candidate_order fs = Some order
    ∧ route_request W prompt (boot fs)
      = match walk W prompt keys order (loaded fs) with
        | (Return (Some reply), s') => (Return reply, s')
        | (Return None, s') => (Raise NoBackendAvailable, s')
        | (Raise e, s') => (Raise e, s')
        end.
Proof.
  intros Hk. destruct (candidate_order_total fs) as (mt & Hmt & _ & _ & Ho).
  eexists. split; [done|].
  unfold route_request. rewrite Hk.
  unfold mbind, M_bind, load_all, get_state; simpl. rewrite Hmt.
  fold (loaded fs).
  by destruct (walk W prompt keys _ (loaded fs)) as [[[reply|]|e] s'].
Qed.

(** A call that has credentials makes failed attempts and cooldown
    tests only, until it either runs out of candidates and raises, or
    meets its first success and returns it. *)
Lemma route_request_spec fs keys out s' :
  get_api_keys (environ W) = Return keys →
  route_request W prompt (boot fs) = (out, s') →
  ∃ order s1,
    candidate_order fs = Some order
    ∧ quiet W prompt (loaded fs) s1
    ∧ match out with
      | Raise e => e = NoBackendAvailable ∧ s' = s1
      | Return reply =>
          ∃ model key resp,
            model ∈ order ∧ key ∈ keys
            ∧ generate_content W (length (attempts s1)) model key prompt
              = Some resp
            ∧ s' = after_success W s1 model key resp
            ∧ reply = reply_of W s1 model resp
      end.
Proof.
  intros Hk Hrun.
  destruct (route_request_run fs keys Hk) as (order & Ho & Heq).
  rewrite Heq in Hrun.
  destruct (walk W prompt keys order (loaded fs)) as [r s2] eqn:Hw.
  apply walk_spec in Hw as (s1 & Hq & Hr).
  exists order, s1. split_and!; [done..|].
  destruct r as [[reply|]|e]; [| |done]; simplify_eq; done.
Qed.

End Route.

(* ================================================================== *)
(** * The claims *)
(* ================================================================== *)

(* ------------------------------------------------------------------ *)
(** ** C1: the candidate order *)
(* ------------------------------------------------------------------ *)

(** The order as the claim words it: the locked model, then the tiers S,
    A, B, C, each listing its models in the order of the balance ranking
    (blended score, ascending), the locked model left out. *)
Definition claimed_order (fs : files) : option (list string) :=
  multi_tiers ← assign_multi_tiers (load_stats fs);
  let first := locked (load_state fs) in
  let ranked := (balance_rank (metrics_of (load_stats fs))).*1 in
  Some (first
        ++ (tier ← [tS; tA; tB; tC];
            filter (λ m, balance <$> PyDict.get multi_tiers m = Some tier
                         ∧ m ∉ first) ranked)).

(** Four models with one success each and latencies 1, 2, 5 and 3
    seconds, stored in this order; nothing locked. *)
Definition four_models : files :=
  let window (seconds : float) := [Entry.mk 1 seconds (Some 10%Z)] in
  {| STATS_FILE := Some [("a", window 1%float); ("b", window 2%float);
                         ("c", window 5%float); ("d", window 3%float)];
     STATE_FILE := None;
     COOLDOWN_FILE := None |}.

(** C1, as stated, fails: "d" ranks before "c" (score 2 against 4) and
    both are in tier B, yet the order puts "c" first, as the store does. *)
Lemma C1_store_order_counterexample :
  (balance_rank (metrics_of (load_stats four_models))).*1
  = ["a"; "b"; "d"; "c"]
  ∧ candidate_order four_models = Some ["a"; "b"; "c"; "d"]
  ∧ claimed_order four_models = Some ["a"; "b"; "d"; "c"]
  ∧ candidate_order four_models ≠ claimed_order four_models.
Proof. vm_compute. split_and!; try reflexivity. discriminate. Qed.

Lemma get_api_keys_nonempty environ keys :
  get_api_keys environ = Return keys → ∃ key rest, keys = key :: rest.
Proof.
  unfold get_api_keys.
  destruct ((filter _ environ).*2) as [|key rest]; [done|].
  intros [= <-]. eauto.
Qed.

(** When the first candidate is not cooling down, the first remote
    invocation is on it, with the first key. *)
Lemma walk_first_attempt W prompt key keys model order s r s' :
  attempts s = [] →
  is_cooling W s model = false →
  walk W prompt (key :: keys) (model :: order) s = (r, s') →
  head (attempts s') = Some (model, key).
Proof.
  intros Hs Hc. rewrite walk_cons, Hc, try_keys_cons.
  assert (attempts (checked s model) = []) as Hck
    by by rewrite checked_attempts.
  destruct (generate_content W _ model key prompt) as [resp|].
  - intros [= <- <-]. simpl. by rewrite Hck.
  - destruct (try_keys W model prompt keys _) as [r1 s1] eqn:Htk.
    apply try_keys_attempts in Htk as (tried & _ & Hatt).
    simpl in Hatt. rewrite Hck in Hatt. simpl in Hatt.
    destruct r1 as [[reply|]|e]; [by intros [= <- <-]; rewrite Hatt| |
      by intros [= <- <-]; rewrite Hatt].
    intros Hw. apply walk_attempts in Hw as (new & -> & _). by rewrite Hatt.
Qed.

(** C1 (amended).  For every routing call the candidate order is: the
    locked backend first when a lock is set, then the backends grouped by
    their balance tier in the sequence S, A, B, C, where the tier of a
    backend is the letter of its position in the balance ranking, and
    within a tier the backends appear in the iteration order of the
    metrics store (not in the order of the ranking), the locked backend
    being skipped; no backend is listed twice.  When a lock is set to X,
    X is the first candidate whatever its tier, and it is the first
    backend attempted unless it is cooling down at that moment. *)
Theorem C1_candidate_order (fs : files) :
  let store := load_stats fs in
  let lock := load_state fs in
  ∃ multi_tiers order,
    assign_multi_tiers store = Some multi_tiers
    ∧ candidate_order fs = Some order
    ∧ order = build_order lock multi_tiers
    (* the tiers are those of the balance ranking *)
    ∧ PyDict.keys multi_tiers = PyDict.keys store
    ∧ (∀ i m x,
         balance_rank (metrics_of store) !! i = Some (m, x) →
         ∃ t, PyDict.get multi_tiers m = Some t
              ∧ balance t = tier_letter i (length store))
    (* lock, then S, A, B, C, each in store order *)
    ∧ order = locked lock
              ++ in_tier lock multi_tiers tS ++ in_tier lock multi_tiers tA
              ++ in_tier lock multi_tiers tB ++ in_tier lock multi_tiers tC
    ∧ (∀ tier,
         in_tier lock multi_tiers tier `sublist_of` PyDict.keys store
         ∧ ∀ m, m ∈ in_tier lock multi_tiers tier
                ↔ balance <$> PyDict.get multi_tiers m = Some tier
                  ∧ lock_set lock ≠ Some m)
    ∧ NoDup order
    (* lock precedence *)
    ∧ (∀ X, lock_set lock = Some X → head order = Some X)
    ∧ (∀ X W prompt keys out s',
         lock_set lock = Some X →
         get_api_keys (environ W) = Return keys →
         is_cooling W (loaded fs) X = false →
         route_request W prompt (boot fs) = (out, s') →
         ∃ key, head keys = Some key ∧ head (attempts s') = Some (X, key)).
Proof.
  intros store lock.
  destruct (assign_multi_tiers_total store) as (mt & Hmt & Hk & Ht).
  assert (PyDict.wf mt) as Hwf.
  { unfold PyDict.wf, PyDict.keys. rewrite Hk. apply load_stats_wf. }
  assert (candidate_order fs = Some (build_order lock mt)) as Hco.
  { unfold candidate_order. fold store. by rewrite Hmt. }
  assert (∀ X, lock_set lock = Some X →
               ∃ rest, build_order lock mt = X :: rest) as Hhead.
  { intros X HX. rewrite build_order_tiers by done. unfold locked.
    rewrite HX. simpl. eauto. }
  exists mt, (build_order lock mt). split_and!; try done.
  - intros i m x Hi.
    assert (NoDup (balance_rank (metrics_of store)).*1) as Hnd
      by apply ranking_NoDup, metrics_of_wf.
    assert (length (balance_rank (metrics_of store)) = length store) as Hlen.
    { unfold balance_rank. rewrite sorted_Permutation.
      rewrite metrics_of_items by apply load_stats_wf.
      by rewrite length_fmap. }
    assert (m ∈ PyDict.keys mt) as Hm.
    { unfold PyDict.keys. rewrite Hk. apply metrics_of_keys.
      rewrite <- (ranking_keys_perm PrimFloat.ltb (λ x, balance_key x.2)).
      apply list_elem_of_fmap. exists (m, x). split; [done|].
      apply list_elem_of_lookup. eauto. }
    apply keys_in_get in Hm as [t Hg]. exists t. split; [done|].
    apply PyDict.get_Some_in, Ht in Hg as (_ & _ & Hb).
    rewrite (tier_rank_get _ i m x Hnd Hi), Hlen in Hb. by simplify_eq.
  - by apply build_order_tiers.
  - intros tier. split.
    + unfold in_tier. rewrite <- Hk.
      apply fmap_sublist, sublist_filter.
    + intros m. rewrite in_tier_elem. split.
      * intros (t & Hin & Hb & Hl). apply PyDict.get_wf_in in Hin; [|done].
        rewrite Hin. split; [simpl; by f_equal|].
        intros HX. apply Hl. unfold locked. rewrite HX.
        apply list_elem_of_here.
      * intros [Hg Hl]. destruct (PyDict.get mt m) as [t|] eqn:Hgm; [|done].
        exists t. split_and!.
        -- by apply PyDict.get_Some_in.
        -- by simplify_eq/=.
        -- unfold locked. destruct (lock_set lock) as [X|].
           ++ rewrite list_elem_of_singleton. congruence.
           ++ apply not_elem_of_nil.
  - by apply build_order_NoDup.
  - intros X HX. destruct (Hhead X HX) as [rest ->]. done.
  - intros X W prompt keys out s' HX Hkeys Hcool Hrun.
    destruct (get_api_keys_nonempty _ _ Hkeys) as (key & rest & ->).
    exists key. split; [done|].
    destruct (route_request_run W prompt fs _ Hkeys) as (order & Ho & Heq).
    rewrite Hco in Ho. simplify_eq. rewrite Heq in Hrun.
    destruct (Hhead X HX) as [order' Horder]. rewrite Horder in Hrun.
    destruct (walk W prompt (key :: rest) (X :: order') (loaded fs))
      as [r s2] eqn:Hw.
    apply walk_first_attempt in Hw; [|done..].
    by destruct r as [[reply|]|e]; simplify_eq.
Qed.

(** With the lock on "c", a model of the worst tier present, "c" comes
    first and the others follow by tier. *)
Example lock_on_last_tier :
  candidate_order
    {| STATS_FILE := STATS_FILE four_models; STATE_FILE := Some (Some "c");
       COOLDOWN_FILE := None |}
  = Some ["c"; "a"; "b"; "d"].
Proof. by vm_compute. Qed.

(* ------------------------------------------------------------------ *)
(** ** C2: cooldowns are respected *)
(* ------------------------------------------------------------------ *)

(** C2.  In every routing call, a backend whose stored cooldown expiry is
    strictly greater than the current time at the moment the walk reaches
    it (after the candidates [pre] before it have all been skipped or
    have failed) is never invoked in that call, whatever its tier and
    whether or not it is the locked backend. *)
Theorem C2_cooldown_respected W prompt fs keys order pre model post s1
    expiry out s' :
  get_api_keys (environ W) = Return keys →
  candidate_order fs = Some order →
  order = pre ++ model :: post →
  walk W prompt keys pre (loaded fs) = (Return None, s1) →
  cooldowns s1 !! model = Some expiry →
  (time_time W (clock s1) <? expiry)%float = true →
  route_request W prompt (boot fs) = (out, s') →
  ∀ key, (model, key) ∉ attempts s'.
Proof.
  intros Hkeys Horder -> Hpre Hcd Hlt Hrun key Hin.
  destruct (candidate_order_total fs) as (mt & _ & Hwf & _ & Ho).
  rewrite Horder in Ho. injection Ho as Ho.
  pose proof (build_order_NoDup (load_state fs) mt Hwf) as Hnd.
  rewrite <- Ho in Hnd. apply NoDup_app in Hnd as (_ & Hdis & Hnd).
  apply NoDup_cons in Hnd as [Hpost _].
  destruct (route_request_run W prompt fs keys Hkeys) as (order & Ho' & Heq).
  rewrite Horder in Ho'. injection Ho' as <-.
  rewrite Heq, walk_app, Hpre, walk_cons in Hrun.
  assert (is_cooling W s1 model = true) as Hcool
    by (unfold is_cooling; by rewrite Hcd).
  rewrite Hcool in Hrun.
  destruct (walk W prompt keys post (checked s1 model)) as [r s2] eqn:Hw.
  assert (s2 = s') as -> by (by destruct r as [[reply|]|e]; simplify_eq).
  apply walk_attempts in Hw as (new2 & Hatt2 & Hin2 & _).
  apply walk_attempts in Hpre as (new1 & Hatt1 & Hin1 & _).
  rewrite checked_attempts in Hatt2. simpl in Hatt1.
  rewrite Hatt2, Hatt1 in Hin. apply elem_of_app in Hin as [Hin|Hin].
  - apply Hin1 in Hin as [Hin _]. apply (Hdis _ Hin). apply list_elem_of_here.
  - by apply Hin2 in Hin as [Hin _].
Qed.

(** A locked model "a" that is cooling down until time 1000, read at
    time 100: the call never invokes it and is served by "b". *)
Definition cooling_world : world :=
  {| environ := [("GEMINI_API_KEY", "k1")];
     time_time := λ n, float_of_Z (100 + Z.of_nat n);
     generate_content := λ _ _ _ _,
       Some {| text := Some "hi"; max_output_tokens := Some 8%Z;
               str := "response" |};
     list_models := λ _, [] |}.

Definition cooling_files : files :=
  {| STATS_FILE := Some [("a", []); ("b", [])];
     STATE_FILE := Some (Some "a");
     COOLDOWN_FILE := Some {[ "a" := 1000%float ]} |}.

Lemma C2_cooldown_respected_witness :
  attempts (route_request cooling_world "hello" (boot cooling_files)).2
  = [("b", "k1")]
  ∧ ∀ key,
      ("a", key)
      ∉ attempts (route_request cooling_world "hello" (boot cooling_files)).2.
Proof.
  split; [by vm_compute|].
  apply (C2_cooldown_respected cooling_world "hello" cooling_files
           ["k1"] ["a"; "b"] [] "a" ["b"] (loaded cooling_files)
           1000%float
           (route_request cooling_world "hello" (boot cooling_files)).1);
    by vm_compute.
Defined.

(* ------------------------------------------------------------------ *)
(** ** C3: the first success *)
(* ------------------------------------------------------------------ *)



(* ------------------------------------------------------------------ *)
(** ** C4: failures *)
(* ------------------------------------------------------------------ *)


(** The fallback walk of the specification: "A" fails with both keys, "B"
    is cooling down, "C" succeeds.  The call returns the answer of "C";
    the only new cooldown entry is the one of "A", written twice (once per
    failed key) before the stats are saved once. *)
Definition fallback_world : world :=
  {| environ := [("PATH", "/usr/bin"); ("GEMINI_API_KEY", "k1");
                 ("GEMINI_API_KEY_2", "k2")];
     time_time := λ n, float_of_Z (100 + Z.of_nat n);
     generate_content := λ _ model _ _,
       if decide (model = "C")
       then Some {| text := Some "hi"; max_output_tokens := None;
                    str := "response" |}
       else None;
     list_models := λ _, [] |}.

Definition fallback_files : files :=
  let window (seconds : float) := [Entry.mk 1 seconds (Some 10%Z)] in
  {| STATS_FILE := Some [("A", window 1%float); ("B", window 2%float);
                         ("C", window 3%float)];
     STATE_FILE := None;
     COOLDOWN_FILE := Some {[ "B" := 1000%float ]} |}.

Example fallback_walk :
  let run := route_request fallback_world "hello" (boot fallback_files) in
  run.1 = Return (Reply.mk "C" 1%float 0%Z "hi")
  ∧ attempts run.2 = [("A", "k1"); ("A", "k2"); ("C", "k1")]
  ∧ cooldowns run.2 = {[ "A" := 163%float; "B" := 1000%float ]}
  ∧ COOLDOWN_FILE (disk run.2) = Some (cooldowns run.2)
  ∧ is_save_cooldowns <$> saves run.2 = [true; true; false]
  ∧ PyDict.get (stats run.2) "C"
    = Some [Entry.mk 1 3%float (Some 10%Z); Entry.mk 1 1%float (Some 0%Z)].
Proof. by vm_compute. Qed.

(* ------------------------------------------------------------------ *)
(** ** C7: the rolling window *)
(* ------------------------------------------------------------------ *)

Definition bounded (stats : dict (list Entry.t)) : Prop :=
  ∀ m w, PyDict.get stats m = Some w → length w ≤ ROLLING_WINDOW.

Lemma assign_all_get {V} (l : list (string * V)) (d : dict V) m v :
  PyDict.get (assign_all d l) m = Some v →
  PyDict.get d m = Some v ∨ (m, v) ∈ l.
Proof.
  revert d. induction l as [|[k x] l IH]; simpl; intros d Hg; [by left|].
  apply IH in Hg as [Hg|Hg]; [|right; by apply list_elem_of_further].
  destruct (decide (k = m)) as [->|Hne].
  - rewrite PyDict.get_set_eq in Hg. simplify_eq. right.
    apply list_elem_of_here.
  - rewrite PyDict.get_set_ne in Hg by done. by left.
Qed.

Lemma load_stats_bounded fs : bounded (load_stats fs).
Proof.
  intros m w Hg. rewrite load_stats_assign in Hg.
  apply assign_all_get in Hg as [Hg|Hin]; [done|].
  apply list_elem_of_fmap in Hin as ([m' es] & [= -> ->] & _).
  apply deque_length.
Qed.

Lemma stats_append_get stats model e m :
  PyDict.get (stats_append stats model e) m
  = if decide (model = m)
    then Some (deque_append ROLLING_WINDOW
                 (default [] (PyDict.get stats model)) e)
    else PyDict.get stats m.
Proof.
  unfold stats_append. case_decide as Hm.
  - subst. apply PyDict.get_set_eq.
  - by apply PyDict.get_set_ne.
Qed.

Lemma stats_append_bounded stats model e :
  bounded stats → bounded (stats_append stats model e).
Proof.
  intros Hb m w. rewrite stats_append_get. case_decide.
  - intros [= <-]. apply deque_length.
  - apply Hb.
Qed.



(** Twenty-one appends to an empty window: the first record is gone, the
    other twenty are kept in insertion order. *)
Example twenty_one_appends :
  let record (n : Z) := Entry.mk 1 (float_of_Z n) (Some n) in
  let records := record <$> seqZ 1 21 in
  foldl (deque_append ROLLING_WINDOW) [] records = record <$> seqZ 2 20.
Proof. by vm_compute. Qed.

(* ------------------------------------------------------------------ *)
(** ** C8: exhaustion *)
(* ------------------------------------------------------------------ *)


(** No [GEMINI_API_KEY*] variable is set, and every remote call would
    fail. *)
Definition no_key_world : world :=
  {| environ := [("HOME", "/root")];
     time_time := λ n, float_of_Z (Z.of_nat n);
     generate_content := λ _ _ _ _, None;
     list_models := λ _, [] |}.



(** Two models and two keys, everything failing: four invocations, four
    cooldown saves, [NoBackendAvailable]. *)
Definition failing_world : world :=
  {| environ := [("GEMINI_API_KEY", "k1"); ("GEMINI_API_KEY_2", "k2")];
     time_time := λ n, float_of_Z (Z.of_nat n);
     generate_content := λ _ _ _ _, None;
     list_models := λ _, [] |}.



(* ------------------------------------------------------------------ *)
(** ** C9: no pair is tried twice *)
(* ------------------------------------------------------------------ *)

(** The claim as stated: the remote invocations of one call are pairwise
    distinct (model, key) pairs. *)
Definition no_repeat_claim (W : world) (prompt : string) (fs : files)
  : Prop :=
  NoDup (attempts (route_request W prompt (boot fs)).2).

(** Two environment variables hold the same key. *)
Definition repeated_key_world : world :=
  {| environ := [("GEMINI_API_KEY", "k"); ("GEMINI_API_KEY_OLD", "k")];
     time_time := λ n, float_of_Z (Z.of_nat n);
     generate_content := λ _ _ _ _, None;
     list_models := λ _, [] |}.

Definition one_model : files :=
  {| STATS_FILE := Some [("a", [])];
     STATE_FILE := None; COOLDOWN_FILE := None |}.

(** C9, as stated, fails: [get_api_keys] keeps both values, and the key
    loop invokes ("a", "k") once for each. *)
Lemma C9_repeated_key_counterexample :
  get_api_keys (environ repeated_key_world) = Return ["k"; "k"]
  ∧ attempts (route_request repeated_key_world "hello" (boot one_model)).2
    = [("a", "k"); ("a", "k")]
  ∧ ¬ no_repeat_claim repeated_key_world "hello" one_model.
Proof.
  split_and!; [by vm_compute..|]. unfold no_repeat_claim.
  replace (attempts _) with [("a", "k"); ("a", "k")] by by vm_compute.
  intros Hnd. apply NoDup_cons in Hnd as [Hnin _]. apply Hnin.
  apply list_elem_of_here.
Qed.

(** C9 (amended).  When the configured keys are pairwise distinct, the
    remote invocations of one routing call are pairwise distinct (model,
    key) pairs, also when the locked backend is in the store and so has a
    tier of its own. *)
Theorem C9_no_repeated_pair W prompt fs :
  (∀ keys, get_api_keys (environ W) = Return keys → NoDup keys) →
  no_repeat_claim W prompt fs.
Proof.
  intros Hdistinct. unfold no_repeat_claim.
  destruct (get_api_keys (environ W)) as [keys|e] eqn:Hkeys.
  2:{ rewrite (route_request_no_keys W prompt fs e Hkeys). constructor. }
  specialize (Hdistinct keys eq_refl).
  destruct (candidate_order_total fs) as (mt & _ & Hwf & _ & Ho).
  destruct (route_request_run W prompt fs keys Hkeys) as (order & Ho' & ->).
  rewrite Ho in Ho'. injection Ho' as <-.
  destruct (walk W prompt keys _ (loaded fs)) as [r s'] eqn:Hw.
  apply walk_attempts in Hw as (new & Hatt & _ & Hnd). simpl in Hatt.
  assert (attempts s' = new) as Hs' by done.
  assert (NoDup new) as Hnew.
  { apply Hnd; [|done]. by apply build_order_NoDup. }
  destruct r as [[reply|]|e]; simpl; by rewrite Hs'.
Qed.

(** The locked model "a" is also in the store; both keys fail on both
    models. *)
Definition locked_two_models : files :=
  {| STATS_FILE := Some [("a", []); ("b", [])];
     STATE_FILE := Some (Some "a"); COOLDOWN_FILE := None |}.

Lemma C9_no_repeated_pair_witness :
  attempts (route_request failing_world "hello" (boot locked_two_models)).2
  = [("a", "k1"); ("a", "k2"); ("b", "k1"); ("b", "k2")]
  ∧ no_repeat_claim failing_world "hello" locked_two_models.
Proof.
  split; [by vm_compute|].
  apply (C9_no_repeated_pair failing_world "hello" locked_two_models).
  intros keys Hkeys. vm_compute in Hkeys. injection Hkeys as <-.
  apply (bool_decide_unpack _). by vm_compute.
Defined.

(* ------------------------------------------------------------------ *)
(** ** C10: the backends a call can attempt *)
(* ------------------------------------------------------------------ *)

(** The same world with another model discovery. *)
Definition with_list_models (W : world) (discovery : string → list string)
  : world :=
  {| environ := environ W; time_time := time_time W;
     generate_content := generate_content W; list_models := discovery |}.

(** [route_request] never calls [get_available_models]. *)
Lemma route_request_ignores_discovery W discovery prompt s :
  route_request (with_list_models W discovery) prompt s
  = route_request W prompt s.
Proof. reflexivity. Qed.

(** A world with one key in which every invocation fails and the clock
    reads [+infinity], so that no model is ever cooling down. *)
Definition probing_world : world :=
  {| environ := [("GEMINI_API_KEY", "k")];
     time_time := λ _, infinity;
     generate_content := λ _ _ _ _, None;
     list_models := λ _, [] |}.

Lemma ltb_infinity (x : float) : (infinity <? x)%float = false.
Proof.
  rewrite ltb_spec. unfold SFltb, SFcompare.
  replace (Prim2SF infinity) with (S754_infinity false) by reflexivity.
  by destruct (Prim2SF x) as [[]|[]| |[]].
Qed.

Lemma probing_world_walk prompt order s :
  ∃ s', walk probing_world prompt ["k"] order s = (Return None, s')
        ∧ attempts s' = attempts s ++ ((λ m, (m, "k")) <$> order).
Proof.
  revert s. induction order as [|model order IH]; intros s.
  - exists s. simpl. by rewrite app_nil_r.
  - rewrite walk_cons.
    assert (is_cooling probing_world s model = false) as ->.
    { unfold is_cooling. destruct (cooldowns s !! model); [|done].
      apply ltb_infinity. }
    rewrite try_keys_cons. simpl.
    destruct (IH (after_failure probing_world (checked s model) model "k"))
      as (s' & -> & Hatt).
    exists s'. split; [done|]. rewrite Hatt. simpl.
    by rewrite checked_attempts, <- app_assoc.
Qed.

(** The backends of the loaded metrics store, and the locked one. *)
Definition known (fs : files) (m : string) : Prop :=
  m ∈ PyDict.keys (load_stats fs) ∨ lock_set (load_state fs) = Some m.

(** The claim as stated. *)
Definition store_only_claim (W : world) (prompt : string) (fs : files)
  : Prop :=
  let run := route_request W prompt (boot fs) in
  (∀ m, (∃ order, candidate_order fs = Some order ∧ m ∈ order) ↔ known fs m)
  ∧ (∀ m k, (m, k) ∈ attempts run.2 → known fs m)
  ∧ (∀ discovery,
       route_request (with_list_models W discovery) prompt (boot fs) = run)
  ∧ (load_stats fs = [] → lock_set (load_state fs) = None →
     attempts run.2 = [] ∧ run.1 = Raise NoBackendAvailable).

Definition no_files : files :=
  {| STATS_FILE := None; STATE_FILE := None; COOLDOWN_FILE := None |}.

(** C10, as stated, fails: with an empty store, no lock and no
    credential, the call raises the [RuntimeError] of [get_api_keys]. *)
Lemma C10_no_credentials_counterexample :
  load_stats no_files = []
  ∧ lock_set (load_state no_files) = None
  ∧ (route_request no_key_world "hello" (boot no_files)).1
    = Raise NoCredentials
  ∧ ¬ store_only_claim no_key_world "hello" no_files.
Proof.
  split_and!; [by vm_compute..|].
  intros (_ & _ & _ & Hempty).
  destruct Hempty as [_ Hout]; [done..|]. by vm_compute in Hout.
Qed.

(** C10 (amended).  The candidates of a routing call are exactly the
    backends of the loaded metrics store, plus the locked backend when a
    lock is set: every remote invocation is on one of them, and each of
    them is invoked by some call on the same files.  Backend discovery is
    not consulted.  When the store is empty and no lock is set the call
    makes no remote invocation; it raises [NoBackendAvailable] if it has
    a credential, and otherwise the [NoCredentials] error of
    [get_api_keys]. *)
Theorem C10_candidates_from_store W prompt fs :
  let run := route_request W prompt (boot fs) in
  (∀ m, (∃ order, candidate_order fs = Some order ∧ m ∈ order) ↔ known fs m)
  ∧ (∀ m k, (m, k) ∈ attempts run.2 → known fs m)
  ∧ (∀ m, known fs m →
          ∃ W' k, (m, k) ∈ attempts (route_request W' prompt (boot fs)).2)
  ∧ (∀ discovery,
       route_request (with_list_models W discovery) prompt (boot fs) = run)
  ∧ (load_stats fs = [] → lock_set (load_state fs) = None →
     attempts run.2 = []
     ∧ run.1 = match get_api_keys (environ W) with
               | Return _ => Raise NoBackendAvailable
               | Raise _ => Raise NoCredentials
               end).
Proof.
  intros run.
  destruct (candidate_order_total fs) as (mt & Hmt & Hwf & Hk & Ho).
  assert (∀ m, m ∈ build_order (load_state fs) mt ↔ known fs m) as Hknown.
  { intros m. rewrite build_order_elem by done. unfold known.
    rewrite Hk. tauto. }
  split_and!.
  - intros m. rewrite Ho. split.
    + intros (order & [= <-] & Hin). by apply Hknown.
    + intros Hm. eexists. split; [done|]. by apply Hknown.
  - intros m k Hin. subst run.
    destruct (get_api_keys (environ W)) as [keys|e] eqn:Hkeys.
    2:{ rewrite (route_request_no_keys W prompt fs e Hkeys) in Hin.
        by apply elem_of_nil in Hin. }
    destruct (route_request_run W prompt fs keys Hkeys) as (order & Ho' & Heq).
    rewrite Ho in Ho'. injection Ho' as <-. rewrite Heq in Hin.
    destruct (walk W prompt keys _ (loaded fs)) as [r s'] eqn:Hw.
    apply walk_attempts in Hw as (new & Hatt & Hnew & _). simpl in Hatt.
    assert ((m, k) ∈ attempts s') as Hin'
      by by destruct r as [[reply|]|e].
    rewrite Hatt in Hin'. by apply Hnew in Hin' as [?%Hknown _].
  - intros m Hm. exists probing_world, "k".
    destruct (route_request_run probing_world prompt fs ["k"] eq_refl)
      as (order & Ho' & ->).
    rewrite Ho in Ho'. injection Ho' as <-.
    destruct (probing_world_walk prompt (build_order (load_state fs) mt)
                (loaded fs)) as (s' & -> & Hatt). simpl. rewrite Hatt. simpl.
    apply list_elem_of_fmap. exists m. split; [done|]. by apply Hknown.
  - intros discovery. apply route_request_ignores_discovery.
  - intros Hempty Hlock. subst run.
    destruct (get_api_keys (environ W)) as [keys|e] eqn:Hkeys.
    2:{ rewrite (route_request_no_keys W prompt fs e Hkeys). simpl.
        split; [done|]. unfold get_api_keys in Hkeys.
        destruct ((filter _ (environ W)).*2); by simplify_eq. }
    destruct (route_request_run W prompt fs keys Hkeys) as (order & Ho' & ->).
    rewrite Ho in Ho'. injection Ho' as <-.
    assert (build_order (load_state fs) mt = []) as ->.
    { destruct (build_order (load_state fs) mt) as [|m rest] eqn:Hb; [done|].
      assert (known fs m) as [Hm|Hm]
        by (apply Hknown; apply list_elem_of_here).
      - rewrite Hempty in Hm. by apply elem_of_nil in Hm.
      - congruence. }
    done.
Qed.

(** The balance ranking of [four_models] is a ranking of four backends:
    "a", "b", "d", "c" get S, A, B, B. *)
Lemma C5_tier_by_rank_position_witness :
  let rank_list := balance_rank (metrics_of (load_stats four_models)) in
  NoDup rank_list.*1
  ∧ rank_list.*1 = ["a"; "b"; "d"; "c"]
  ∧ PyDict.get (tier_rank rank_list) "d" = Some (tier_letter 2 4)
  ∧ tier_letter 2 4 = tB
  ∧ PyDict.keys (tier_rank rank_list) = rank_list.*1.
Proof.
  intros rank_list.
  assert (NoDup rank_list.*1) as Hnd
    by (apply (bool_decide_unpack _); by vm_compute).
  destruct (C5_tier_by_rank_position rank_list Hnd)
    as (Hget & _ & _ & Hkeys & _ & _).
  split_and!; [exact Hnd|by vm_compute| |by vm_compute|exact Hkeys].
  apply (Hget 2 "d" (Metric.mk 3%float 10%Z 1%float)). by vm_compute.
Defined.

(* ================================================================== *)
(** * More of the module *)
(* ================================================================== *)

(* ------------------------------------------------------------------ *)
(** ** Saving and loading the metrics store *)
(* ------------------------------------------------------------------ *)

Lemma stats_append_wf stats model e :
  PyDict.wf stats → PyDict.wf (stats_append stats model e).
Proof. apply PyDict.wf_set. Qed.

(** On a file that lists each model once, [load_stats] keeps the models
    in file order and cuts every window to its last [ROLLING_WINDOW]
    records. *)
Lemma load_stats_items fs raw :
  STATS_FILE fs = Some raw →
  NoDup raw.*1 →
  load_stats fs = prod_map id (deque ROLLING_WINDOW) <$> raw.
Proof.
  intros Hfile Hnd. rewrite load_stats_assign, Hfile. simpl.
  rewrite assign_all_fresh; [done|]. simpl.
  rewrite <- list_fmap_compose. apply Hnd.
Qed.

Lemma bounded_deque_id (stats : dict (list Entry.t)) :
  PyDict.wf stats → bounded stats →
  prod_map id (deque ROLLING_WINDOW) <$> stats = stats.
Proof.
  intros Hwf Hb. rewrite <- (list_fmap_id stats) at 2.
  apply list_fmap_ext. intros i [m w] Hi. unfold prod_map. simpl.
  f_equal. apply deque_short, (Hb m), PyDict.get_wf_in; [done|].
  apply list_elem_of_lookup. eauto.
Qed.

Lemma saved_stats_load (s : state) :
  PyDict.wf (stats s) → bounded (stats s) →
  load_stats (disk (save_stats s).2) = stats s.
Proof.
  intros Hwf Hb. simpl. rewrite (load_stats_items _ (stats s)); [|done..].
  by apply bounded_deque_id.
Qed.

(** X1.  [save_stats] followed by [load_stats] gives back the store that
    was in memory, whenever that store lists each model once and its
    windows hold at most [ROLLING_WINDOW] records; the other two files
    are not touched by the save. *)
Theorem X1_save_load_stats (s : state) :
  PyDict.wf (stats s) →
  bounded (stats s) →
  let s' := (save_stats s).2 in
  load_stats (disk s') = stats s
  ∧ stats s' = stats s
  ∧ load_cooldowns (disk s') = load_cooldowns (disk s)
  ∧ load_state (disk s') = load_state (disk s).
Proof.
  intros Hwf Hb s'. split_and!; try done. by apply saved_stats_load.
Qed.

(** A store of two models, one window being full. *)
Definition full_window_state : state :=
  let record (n : Z) := Entry.mk 1 (float_of_Z n) (Some n) in
  {| disk := {| STATS_FILE := None; STATE_FILE := Some (Some "a");
                COOLDOWN_FILE := None |};
     saves := []; clock := 0; attempts := [];
     stats := [("a", record <$> seqZ 1 20); ("b", [record 7%Z])];
     cooldowns := ∅ |}.

Lemma X1_save_load_stats_witness :
  load_stats (disk (save_stats full_window_state).2)
  = stats full_window_state.
Proof.
  apply (X1_save_load_stats full_window_state).
  - apply (bool_decide_unpack _). by vm_compute.
  - intros m w Hg. unfold full_window_state, stats in Hg. simpl in Hg.
    repeat case_decide; simplify_eq; vm_compute; lia.
Defined.


(* ------------------------------------------------------------------ *)
(** ** What a routing call leaves behind *)
(* ------------------------------------------------------------------ *)


(** X3.  When a routing call that had credentials ends, by a return or by
    [NoBackendAvailable], nothing it changed lives in memory only: the
    stats file loads to the store it ended with, the cooldown file loads
    to the registry it ended with, and the lock is untouched. *)
Theorem X3_route_persists_everything W prompt fs keys out s' :
  get_api_keys (environ W) = Return keys →
  route_request W prompt (boot fs) = (out, s') →
  load_stats (disk s') = stats s'
  ∧ load_cooldowns (disk s') = cooldowns s'
  ∧ load_state (disk s') = load_state fs.
Proof.
  intros Hkeys Hrun.
  destruct (route_request_spec W prompt fs keys out s' Hkeys Hrun)
    as (order & s1 & _ & Hq & Hout).
  apply quiet_inv in Hq as (new & cw & []). simpl in *.
  assert (load_cooldowns (disk s1) = cooldowns s1) as Hcd.
  { unfold load_cooldowns. destruct new.
    - destruct qf_sync0 as [-> ->]. done.
    - by rewrite qf_sync0. }
  assert (load_stats (disk s1) = stats s1) as Hst.
  { unfold load_stats. by rewrite qf_stats_file0, qf_stats0. }
  destruct out as [reply|e].
  - destruct Hout as (model & key & resp & _ & _ & _ & -> & _).
    split_and!; [|done|unfold load_state; simpl; by rewrite qf_state_file0].
    pose (s2 := {| disk := disk s1; saves := saves s1; clock := clock s1;
                   attempts := attempts s1;
                   stats := stats_append (stats s1) model
                              (record_of W s1 resp);
                   cooldowns := cooldowns s1 |}).
    apply (saved_stats_load s2); simpl; rewrite qf_stats0.
    + apply stats_append_wf, load_stats_wf.
    + apply stats_append_bounded, load_stats_bounded.
  - destruct Hout as [_ ->].
    split_and!; [done..|]. unfold load_state. by rewrite qf_state_file0.
Qed.

Lemma X3_route_persists_everything_witness :
  let run := route_request fallback_world "hello" (boot fallback_files) in
  load_stats (disk run.2) = stats run.2
  ∧ load_cooldowns (disk run.2) = cooldowns run.2
  ∧ load_state (disk run.2) = load_state fallback_files.
Proof.
  apply (X3_route_persists_everything fallback_world "hello" fallback_files
           ["k1"; "k2"]
           (route_request fallback_world "hello" (boot fallback_files)).1);
    by vm_compute.
Defined.



(** "a" fails with the first key and answers with the second: the call
    returns its answer and leaves it on cooldown. *)
Definition second_key_world : world :=
  {| environ := [("GEMINI_API_KEY", "k1"); ("GEMINI_API_KEY_2", "k2")];
     time_time := λ n, float_of_Z (100 + Z.of_nat n);
     generate_content := λ _ _ key _,
       if decide (key = "k2")
       then Some {| text := Some "hi"; max_output_tokens := Some 8%Z;
                    str := "response" |}
       else None;
     list_models := λ _, [] |}.

Example answered_and_on_cooldown :
  let run := route_request second_key_world "hello" (boot one_model) in
  run.1 = Return (Reply.mk "a" 1%float 8%Z "hi")
  ∧ attempts run.2 = [("a", "k1"); ("a", "k2")]
  ∧ load_cooldowns (disk run.2) = {[ "a" := 161%float ]}.
Proof. by vm_compute. Qed.

(** X5.  A locked backend that the metrics store does not know is still
    the first one tried; when it is not cooling down and answers the
    first key, the call returns its answer and the store gets a new
    window for it, placed after all the others and holding the one new
    record, so that later calls know the backend. *)
Theorem X5_locked_unknown_backend W prompt fs X key rest resp :
  lock_set (load_state fs) = Some X →
  X ∉ PyDict.keys (load_stats fs) →
  get_api_keys (environ W) = Return (key :: rest) →
  is_cooling W (loaded fs) X = false →
  generate_content W 0 X key prompt = Some resp →
  let run := route_request W prompt (boot fs) in
  let s0 := checked (loaded fs) X in
  run.1 = Return (reply_of W s0 X resp)
  ∧ attempts run.2 = [(X, key)]
  ∧ stats run.2 = load_stats fs ++ [(X, [record_of W s0 resp])]
  ∧ load_stats (disk run.2) = stats run.2
  ∧ X ∈ PyDict.keys (load_stats (disk run.2)).
Proof.
  intros Hlock Hnew Hkeys Hcool Hgc run s0.
  destruct (candidate_order_total fs) as (mt & _ & Hwf & _ & Ho).
  destruct (route_request_run W prompt fs _ Hkeys) as (order & Ho' & Heq).
  rewrite Ho in Ho'. injection Ho' as <-.
  assert (∃ order', build_order (load_state fs) mt = X :: order')
    as [order' Horder].
  { rewrite build_order_tiers by done. unfold locked. rewrite Hlock.
    simpl. eauto. }
  assert (attempts s0 = []) as Hs0 by apply checked_attempts.
  assert (stats s0 = load_stats fs) as Hst.
  { unfold s0, checked. by destruct (cooldowns (loaded fs) !! X). }
  assert (run = (Return (reply_of W s0 X resp),
                 after_success W s0 X key resp)) as Hrun.
  { unfold run. rewrite Heq, Horder, walk_cons, Hcool, try_keys_cons.
    fold s0. rewrite Hs0. simpl. by rewrite Hgc. }
  assert (stats (after_success W s0 X key resp)
          = load_stats fs ++ [(X, [record_of W s0 resp])]) as Hstats.
  { simpl. rewrite Hst. unfold stats_append.
    assert (PyDict.get (load_stats fs) X = None) as ->
      by by apply PyDict.get_None.
    by rewrite set_fresh. }
  rewrite Hrun. cbn [fst snd].
  assert (load_stats (disk (after_success W s0 X key resp))
          = stats (after_success W s0 X key resp)) as Hload.
  { pose (s2 := {| disk := disk s0; saves := saves s0; clock := clock s0;
                   attempts := attempts s0;
                   stats := stats_append (stats s0) X (record_of W s0 resp);
                   cooldowns := cooldowns s0 |}).
    apply (saved_stats_load s2); simpl; rewrite Hst.
    - apply stats_append_wf, load_stats_wf.
    - apply stats_append_bounded, load_stats_bounded. }
  split_and!; [done|simpl; by rewrite Hs0|done..|].
  rewrite Hload, Hstats. unfold PyDict.keys. rewrite fmap_app.
  apply elem_of_app. right. apply list_elem_of_here.
Qed.

(** "z" is locked but has never been recorded; "a" is in the store. *)
Definition locked_stranger : files :=
  {| STATS_FILE := Some [("a", [])];
     STATE_FILE := Some (Some "z"); COOLDOWN_FILE := None |}.

Lemma X5_locked_unknown_backend_witness :
  let run := route_request cooling_world "hello" (boot locked_stranger) in
  attempts run.2 = [("z", "k1")]
  ∧ PyDict.keys (stats run.2) = ["a"; "z"]
  ∧ "z" ∈ PyDict.keys (load_stats (disk run.2)).
Proof.
  intros run.
  destruct (X5_locked_unknown_backend cooling_world "hello" locked_stranger
              "z" "k1" []
              {| text := Some "hi"; max_output_tokens := Some 8%Z;
                 str := "response" |})
    as (_ & Hatt & Hstats & _ & Hknown);
    [by vm_compute|apply (bool_decide_unpack _); by vm_compute
    |by vm_compute..|].
  split_and!; [exact Hatt| |exact Hknown].
  fold run in Hstats. by rewrite Hstats.
Defined.

(* ------------------------------------------------------------------ *)
(** ** The order of the invocations *)
(* ------------------------------------------------------------------ *)

(** The invocations of a list of visits: each visit is a model with the
    keys tried on it, in order. *)
Definition invocations (visits : list (string * list string))
  : list (string * string) :=
  v ← visits; pair v.1 <$> v.2.

(** The shape of a walk: the models visited are taken from the order
    without going back, each with a prefix of the keys, complete for every
    visit but the last, and for the last too when the walk ends without a
    return. *)
Lemma walk_visits W prompt keys order s r s' :
  walk W prompt keys order s = (r, s') →
  ∃ visits,
    attempts s' = attempts s ++ invocations visits
    ∧ visits.*1 `sublist_of` order
    ∧ Forall (λ v, v.2 `prefix_of` keys) visits
    ∧ (∀ i v, visits !! i = Some v → S i < length visits → v.2 = keys)
    ∧ (r = Return None → Forall (λ v, v.2 = keys) visits).
Proof.
  revert s. induction order as [|model order IH]; intros s.
  - simpl. intros [= <- <-]. exists []. unfold invocations. simpl.
    rewrite app_nil_r. split_and!; done.
  - rewrite walk_cons. destruct (is_cooling W s model).
    { intros Hw. destruct (IH _ Hw) as (visits & Hatt & Hsub & Hpre & Hfull).
      exists visits. rewrite checked_attempts in Hatt.
      split_and!; try done; [by apply sublist_cons|apply Hfull..]. }
    destruct (try_keys W model prompt keys (checked s model))
      as [r1 s2] eqn:Htk.
    apply try_keys_spec in Htk as (s1 & tried & _ & Hatt1 & Hr1).
    rewrite checked_attempts in Hatt1.
    destruct r1 as [[reply|]|e]; [| |done].
    + intros [= <- <-].
      destruct Hr1 as (key & rest & resp & -> & _ & -> & _).
      exists [(model, tried ++ [key])]. unfold invocations. simpl.
      rewrite app_nil_r, Hatt1, fmap_app, <- app_assoc.
      split_and!; try done.
      * apply sublist_skip, sublist_nil_l.
      * constructor; [|done]. simpl.
        apply prefix_app, prefix_cons, prefix_nil.
      * intros [|i] v Hi Hlen; simpl in *; lia.
    + destruct Hr1 as [-> ->]. intros Hw.
      destruct (IH _ Hw) as (visits & Hatt & Hsub & Hpre & Hfull & Hnone).
      exists ((model, keys) :: visits). unfold invocations in *. simpl.
      rewrite Hatt, Hatt1, <- app_assoc.
      split_and!; try done.
      * by apply sublist_skip.
      * by constructor.
      * intros [|i] v Hi Hlen; simpl in *; [by simplify_eq|].
        apply (Hfull i v Hi). lia.
      * intros Hr. constructor; [done|by apply Hnone].
Qed.

(** X6.  The remote invocations of a routing call follow the candidate
    order and the key order and never go back: they are the invocations
    of a list of visits whose backends are taken from the candidate order
    in that order, each visited backend being tried with the configured
    keys from the first one on, without gaps; every visited backend
    except the last was tried with all the keys, and so was the last when
    the call raised [NoBackendAvailable]. *)
Theorem X6_invocations_in_order W prompt fs keys order :
  get_api_keys (environ W) = Return keys →
  candidate_order fs = Some order →
  let run := route_request W prompt (boot fs) in
  ∃ visits,
    attempts run.2 = invocations visits
    ∧ visits.*1 `sublist_of` order
    ∧ Forall (λ v, v.2 `prefix_of` keys) visits
    ∧ (∀ i v, visits !! i = Some v → S i < length visits → v.2 = keys)
    ∧ (run.1 = Raise NoBackendAvailable →
       Forall (λ v, v.2 = keys) visits)
    ∧ attempts run.2 `sublist_of` (m ← order; pair m <$> keys).
Proof.
  intros Hkeys Ho run.
  destruct (route_request_run W prompt fs keys Hkeys) as (order' & Ho' & Heq).
  rewrite Ho in Ho'. injection Ho' as <-.
  destruct (walk W prompt keys order (loaded fs)) as [r s'] eqn:Hw.
  assert (attempts run.2 = attempts s') as Hatt.
  { unfold run. rewrite Heq. by destruct r as [[reply|]|e]. }
  assert (run.1 = Raise NoBackendAvailable → r = Return None) as Hexh.
  { unfold run. rewrite Heq. pose proof (walk_spec W prompt keys order _ _ _ Hw)
      as (s1 & _ & Hr). by destruct r as [[reply|]|e]. }
  apply walk_visits in Hw as (visits & Hv & Hsub & Hpre & Hfull & Hnone).
  simpl in Hv. exists visits. rewrite Hatt, Hv.
  split_and!; try done; [by intros ?%Hexh%Hnone|].
  clear -Hsub Hpre. revert order Hsub.
  induction Hpre as [|[m tried] visits Htried _ IH]; intros order Hsub.
  - apply sublist_nil_l.
  - simpl in Hsub. apply sublist_cons_l in Hsub as (o1 & o2 & -> & Hsub).
    unfold invocations. simpl. fold (invocations visits).
    rewrite bind_app. simpl.
    apply sublist_inserts_l, sublist_app; [|by apply IH].
    destruct Htried as [rest ->]. rewrite fmap_app.
    by apply sublist_inserts_r.
Qed.

Lemma X6_invocations_in_order_witness :
  let run := route_request fallback_world "hello" (boot fallback_files) in
  attempts run.2 = [("A", "k1"); ("A", "k2"); ("C", "k1")]
  ∧ attempts run.2
    `sublist_of` (m ← ["A"; "B"; "C"]; pair m <$> ["k1"; "k2"]).
Proof.
  intros run. split; [by vm_compute|].
  destruct (X6_invocations_in_order fallback_world "hello" fallback_files
              ["k1"; "k2"] ["A"; "B"; "C"])
    as (visits & _ & _ & _ & _ & _ & Hsub); [by vm_compute..|].
  exact Hsub.
Defined.

(* ------------------------------------------------------------------ *)
(** ** The command line *)
(* ------------------------------------------------------------------ *)

(** [save_state({"lock": lock})] *)
Definition save_state (lock : option string) (fs : files) : files :=
  {| STATS_FILE := STATS_FILE fs; STATE_FILE := Some lock;
     COOLDOWN_FILE := COOLDOWN_FILE fs |}.

(** What a command prints. *)
Inductive output :=
| out_text (line : string)
| out_tiers (multi_tiers : dict tiers3)
| out_stats (serial : dict (list Entry.t))
| out_cooldowns (c : gmap string float)
| out_reply (reply : Reply.t).

(** How a run of the program ends: with something printed, with the help
    text, with the usage error of [argparse] (exit status 2), or with an
    exception that nothing catches. *)
Inductive cli_end :=
| printed (o : output)
| printed_help
| usage_error
| attribute_error (attr : string)
| uncaught (e : exn).

(** A command gets the string attributes of [args] and the files, and
    gives how it ends and the files it leaves; [None] marks a command
    that is not modelled. *)
Definition handler : Type :=
  world → dict string → files → option (cli_end * files).

(** [args.attr], which raises [AttributeError] when the parser that made
    [args] has no such argument. *)
Definition getattr (args : dict string) (attr : string)
    (k : string → cli_end * files) (fs : files) : option (cli_end * files) :=
  match PyDict.get args attr with
  | Some v => Some (k v)
  | None => Some (attribute_error attr, fs)
  end.

(** [cmd_rank] probes the models concurrently: not modelled. *)
Definition cmd_rank : handler := λ W args fs, None.

Definition cmd_tiers : handler := λ W args fs,
  match assign_multi_tiers (load_stats fs) with
  | Some multi_tiers => Some (printed (out_tiers multi_tiers), fs)
  | None => Some (uncaught (KeyError "tier_rank"), fs)
  end.

Definition cmd_stats : handler := λ W args fs,
  Some (printed (out_stats (load_stats fs)), fs).

Definition cmd_cooldowns : handler := λ W args fs,
  Some (printed (out_cooldowns (load_cooldowns fs)), fs).

Definition cmd_route : handler := λ W args fs,
  getattr args "prompt"
    (λ prompt,
       match route_request W prompt (boot fs) with
       | (Return reply, s') => (printed (out_reply reply), disk s')
       | (Raise e, s') => (uncaught e, disk s')
       end) fs.

Definition cmd_lock : handler := λ W args fs,
  getattr args "model"
    (λ model,
       (printed (out_text ("Locked to " ++ model)),
        save_state (Some model) fs)) fs.

Definition cmd_unlock : handler := λ W args fs,
  Some (printed (out_text "Unlocked"), save_state None fs).

(** A sub-parser: its positional arguments and the [func] that
    [set_defaults] gave it, if any. *)
Record subparser := {
  positionals : list string;
  func_default : option handler;
}.

Definition add_parser (name : string) (sub : dict subparser)
  : dict subparser :=
  PyDict.set sub name {| positionals := []; func_default := None |}.

Definition add_argument (name arg : string) (sub : dict subparser)
  : dict subparser :=
  match PyDict.get sub name with
  | Some p => PyDict.set sub name
                {| positionals := positionals p ++ [arg];
                   func_default := func_default p |}
  | None => sub
  end.

Definition set_defaults (name : string) (func : handler)
    (sub : dict subparser) : dict subparser :=
  match PyDict.get sub name with
  | Some p => PyDict.set sub name
                {| positionals := positionals p;
                   func_default := Some func |}
  | None => sub
  end.

(** The sub-parsers as [main] builds them, statement by statement.  The
    variable [r] is the parser of "route" and [l] the parser of "lock";
    the last statement of the line that creates [l] is
    [r.set_defaults(func=cmd_lock)]. *)
Definition main_subparsers : dict subparser :=
  let sub := PyDict.empty in
  let sub := set_defaults "rank" cmd_rank (add_parser "rank" sub) in
  let sub := set_defaults "tiers" cmd_tiers (add_parser "tiers" sub) in
  let sub := set_defaults "stats" cmd_stats (add_parser "stats" sub) in
  let sub :=
    set_defaults "cooldowns" cmd_cooldowns (add_parser "cooldowns" sub) in
  let r := "route" in
  let sub :=
    set_defaults r cmd_route (add_argument r "prompt" (add_parser r sub)) in
  let l := "lock" in
  let sub :=
    set_defaults r cmd_lock (add_argument l "model" (add_parser l sub)) in
  set_defaults "unlock" cmd_unlock (add_parser "unlock" sub).

(** The outcome of [parser.parse_args()] on arguments none of which
    starts with "-" (those are options to [argparse]): the attributes of
    [args] and its [func], or the usage error. *)
Inductive parsed :=
| namespace (cmd : option string) (attrs : dict string)
            (func : option handler)
| parse_error.

Definition parse_args (sub : dict subparser) (argv : list string) : parsed :=
  match argv with
  | [] => namespace None [] None
  | cmd :: rest =>
      match PyDict.get sub cmd with
      | None => parse_error
      | Some p =>
          if decide (length rest = length (positionals p))
          then namespace (Some cmd) (zip (positionals p) rest)
                         (func_default p)
          else parse_error
      end
  end.

(** [main()] on the command line [argv]; [None] when an argument starts
    with "-" or the command is not modelled. *)
Definition main (W : world) (argv : list string) (fs : files)
  : option (cli_end * files) :=
  if decide (Exists (λ a, String.prefix "-" a = true) argv) then None
  else
    match parse_args main_subparsers argv with
    | parse_error => Some (usage_error, fs)
    | namespace _ _ None => Some (printed_help, fs)
    | namespace _ args (Some func) => func W args fs
    end.

Lemma filter_fst_ne {V} (P : string * V → Prop) `{!∀ x, Decision (P x)}
    (X : string) (l : list (string * V)) :
  (filter (λ kv, P kv ∧ kv.1 ∉ [X]) l).*1
  = filter (λ k, k ≠ X) (filter P l).*1.
Proof.
  induction l as [|[k v] l IH]; [done|].
  rewrite !filter_cons. simpl.
  destruct (decide (P (k, v))) as [Hp|Hp].
  - rewrite decide_bool_decide. simpl. rewrite filter_cons.
    destruct (decide (k ≠ X)) as [Hk|Hk].
    + rewrite bool_decide_true; [simpl; by f_equal|].
      split; [done|]. by rewrite list_elem_of_singleton.
    + rewrite bool_decide_false; [done|].
      intros [_ Hn]. apply Hk. by rewrite list_elem_of_singleton in Hn.
  - rewrite decide_False by by intros [? _]. done.
Qed.

Lemma filter_fst_all {V} (P : string * V → Prop) `{!∀ x, Decision (P x)}
    (l : list (string * V)) :
  filter (λ kv, P kv ∧ kv.1 ∉ []) l = filter P l.
Proof.
  apply list_filter_iff. intros kv. split; [by intros [? _]|].
  intros Hp. split; [done|]. apply not_elem_of_nil.
Qed.

(** With a lock on [X] the order is [X] followed by the order without a
    lock, [X] taken out. *)
Lemma build_order_lock (X : string) (multi_tiers : dict tiers3) :
  PyDict.wf multi_tiers → X ≠ "" →
  build_order (Some X) multi_tiers
  = X :: filter (λ m, m ≠ X) (build_order None multi_tiers).
Proof.
  intros Hwf HX. rewrite !build_order_tiers by done.
  assert (locked (Some X) = [X]) as HlX
    by (unfold locked; simpl; by rewrite decide_False).
  assert (locked None = []) as Hl0 by done.
  unfold in_tier. rewrite HlX, Hl0. simpl.
  rewrite !filter_app.
  rewrite (filter_fst_ne (λ mt : string * tiers3, balance mt.2 = tS)),
    (filter_fst_ne (λ mt : string * tiers3, balance mt.2 = tA)),
    (filter_fst_ne (λ mt : string * tiers3, balance mt.2 = tB)),
    (filter_fst_ne (λ mt : string * tiers3, balance mt.2 = tC)).
  rewrite (filter_fst_all (λ mt : string * tiers3, balance mt.2 = tS)),
    (filter_fst_all (λ mt : string * tiers3, balance mt.2 = tA)),
    (filter_fst_all (λ mt : string * tiers3, balance mt.2 = tB)),
    (filter_fst_all (λ mt : string * tiers3, balance mt.2 = tC)).
  done.
Qed.

(** X7.  [cmd_lock] with a non-empty model name writes the lock and
    touches neither the metrics nor the cooldowns; the candidate order of
    the next routing call is then that model followed by the order there
    would be without a lock, the model itself taken out, so the relative
    order of all other backends is unchanged.  [cmd_unlock] gives the
    order without a lock back, and a lock on the empty string counts as
    no lock. *)
Theorem X7_lock_moves_to_front W (model : string) (fs : files) :
  model ≠ "" →
  ∃ fs' unlocked,
    cmd_lock W [("model", model)] fs
    = Some (printed (out_text ("Locked to " ++ model)), fs')
    ∧ load_state fs' = Some model
    ∧ load_stats fs' = load_stats fs
    ∧ load_cooldowns fs' = load_cooldowns fs
    ∧ candidate_order (save_state None fs) = Some unlocked
    ∧ candidate_order fs' = Some (model :: filter (λ m, m ≠ model) unlocked)
    ∧ (∃ fs'', cmd_unlock W [] fs' = Some (printed (out_text "Unlocked"), fs'')
               ∧ candidate_order fs'' = Some unlocked)
    ∧ candidate_order (save_state (Some "") fs) = Some unlocked.
Proof.
  intros Hne.
  destruct (candidate_order_total fs) as (mt & Hmt & Hwf & _ & _).
  exists (save_state (Some model) fs), (build_order None mt).
  assert (∀ lock, candidate_order (save_state lock fs)
                  = Some (build_order lock mt)) as Hco.
  { intros lock. unfold candidate_order.
    change (load_stats (save_state lock fs)) with (load_stats fs).
    by rewrite Hmt. }
  split_and!; try done.
  - rewrite Hco. by rewrite build_order_lock.
  - eexists. split; [done|]. apply (Hco None).
  - rewrite Hco. done.
Qed.

Lemma X7_lock_moves_to_front_witness :
  ∃ fs',
    cmd_lock cooling_world [("model", "d")] four_models
    = Some (printed (out_text "Locked to d"), fs')
    ∧ candidate_order fs' = Some ["d"; "a"; "b"; "c"].
Proof.
  destruct (X7_lock_moves_to_front cooling_world "d" four_models)
    as (fs' & unlocked & Hcmd & _ & _ & _ & Hun & Hlocked & _); [done|].
  exists fs'. split; [exact Hcmd|].
  rewrite Hlocked. vm_compute in Hun. injection Hun as <-. by vm_compute.
Defined.

(** The table [main] ends up with: "route" carries [cmd_lock], and "lock"
    carries no [func]. *)
Lemma main_subparsers_table :
  main_subparsers
  = [("rank", {| positionals := []; func_default := Some cmd_rank |});
     ("tiers", {| positionals := []; func_default := Some cmd_tiers |});
     ("stats", {| positionals := []; func_default := Some cmd_stats |});
     ("cooldowns",
      {| positionals := []; func_default := Some cmd_cooldowns |});
     ("route",
      {| positionals := ["prompt"]; func_default := Some cmd_lock |});
     ("lock", {| positionals := ["model"]; func_default := None |});
     ("unlock", {| positionals := []; func_default := Some cmd_unlock |})].
Proof. reflexivity. Qed.

(** X8.  On the command line, [route <prompt>] does not route: [main]
    gave the parser of "route" the function [cmd_lock], which reads
    [args.model], an attribute that parser does not define, so the run
    ends with an uncaught [AttributeError] before anything is written or
    any backend is called.  [lock <model>] does not lock: its parser has
    no [func], so [main] prints the help text and returns.  [unlock]
    works. *)
Theorem X8_route_and_lock_commands W (fs : files) (arg : string) :
  String.prefix "-" arg = false →
  main W ["route"; arg] fs = Some (attribute_error "model", fs)
  ∧ main W ["lock"; arg] fs = Some (printed_help, fs)
  ∧ main W ["unlock"] fs
    = Some (printed (out_text "Unlocked"), save_state None fs).
Proof.
  intros Harg.
  assert (∀ cmd, String.prefix "-" cmd = false →
            ¬ Exists (λ a, String.prefix "-" a = true) [cmd; arg]) as Hno.
  { intros cmd Hcmd Hex. apply Exists_cons in Hex as [?|Hex]; [congruence|].
    apply Exists_cons in Hex as [?|Hex]; [congruence|].
    by apply Exists_nil in Hex. }
  unfold main. rewrite !decide_False by by apply Hno.
  split_and!; reflexivity.
Qed.

Lemma X8_route_and_lock_commands_witness :
  main cooling_world ["route"; "hello"] cooling_files
  = Some (attribute_error "model", cooling_files)
  ∧ main cooling_world ["lock"; "a"] cooling_files
    = Some (printed_help, cooling_files).
Proof.
  destruct (X8_route_and_lock_commands cooling_world cooling_files "hello")
    as (Hroute & _ & _); [done|].
  destruct (X8_route_and_lock_commands cooling_world cooling_files "a")
    as (_ & Hlock & _); [done|].
  by split.
Defined.

(** X9.  Whatever the command line (the concurrent [rank] command and
    option-like arguments aside), a run of [main] leaves the stats file
    and the cooldown file as they are, prints no routing reply and no
    "Locked to" line, and the only change it can make to the state file
    is the removal of the lock by [unlock]. *)
Theorem X9_command_line_effects W (argv : list string) (fs : files) :
  match main W argv fs with
  | None => True
  | Some (how, fs') =>
      STATS_FILE fs' = STATS_FILE fs
      ∧ COOLDOWN_FILE fs' = COOLDOWN_FILE fs
      ∧ (fs' = fs ∨ argv = ["unlock"] ∧ fs' = save_state None fs)
      ∧ (∀ reply, how ≠ printed (out_reply reply))
      ∧ (∀ model, how ≠ printed (out_text ("Locked to " ++ model)))
  end.
Proof.
  unfold main. case_decide as Hopt; [done|]. clear Hopt.
  unfold parse_args. rewrite main_subparsers_table.
  destruct argv as [|cmd rest]; [by split_and!; auto|]. simpl.
  destruct (decide ("rank" = cmd)) as [<-|?].
  { case_decide; simpl; [done|by split_and!; auto]. }
  destruct (decide ("tiers" = cmd)) as [<-|?].
  { case_decide; simpl; [|by split_and!; auto]. unfold cmd_tiers.
    destruct (assign_multi_tiers (load_stats fs)); by split_and!; auto. }
  destruct (decide ("stats" = cmd)) as [<-|?].
  { case_decide; simpl; by split_and!; auto. }
  destruct (decide ("cooldowns" = cmd)) as [<-|?].
  { case_decide; simpl; by split_and!; auto. }
  destruct (decide ("route" = cmd)) as [<-|?].
  { case_decide; simpl; [|by split_and!; auto].
    destruct rest as [|arg [|]]; simplify_eq/=. by split_and!; auto. }
  destruct (decide ("lock" = cmd)) as [<-|?].
  { case_decide; simpl; by split_and!; auto. }
  destruct (decide ("unlock" = cmd)) as [<-|?]; [|by split_and!; auto].
  case_decide; simpl; [|by split_and!; auto].
  destruct rest; simplify_eq/=. split_and!; auto; done.
Qed.

(* ------------------------------------------------------------------ *)
(** ** API keys *)
(* ------------------------------------------------------------------ *)

Lemma prefix_app_iff (p s : string) :
  String.prefix p s = true ↔ ∃ t, s = (p ++ t)%string.
Proof.
  revert s. induction p as [|a p IH]; intros s.
  - destruct s; simpl; split; eauto.
  - destruct s as [|b s]; simpl.
    + split; [done|]. by intros [t ?].
    + destruct (Ascii.ascii_dec a b) as [->|Hne].
      * rewrite IH. split.
        -- intros [t ->]. by exists t.
        -- intros [t [= ->]]. by exists t.
      * split; [done|]. intros [t [= ? ?]]. done.
Qed.

(** X10.  [get_api_keys] returns the values of the environment variables
    whose name is "GEMINI_API_KEY" followed by anything, in the order of
    the environment and with repetitions; the values themselves are not
    looked at, so an empty value is a key like any other.  It raises the
    [RuntimeError] "No GEMINI_API_KEY* env vars found" exactly when no
    variable has such a name, and never returns an empty list. *)
Theorem X10_get_api_keys (environ : list (string * string)) :
  let named (name : string) :=
    ∃ rest, name = ("GEMINI_API_KEY" ++ rest)%string in
  (get_api_keys environ = Raise NoCredentials
   ↔ ∀ name value, (name, value) ∈ environ → ¬ named name)
  ∧ (∀ keys, get_api_keys environ = Return keys →
       keys ≠ []
       ∧ keys `sublist_of` environ.*2
       ∧ ∀ key, key ∈ keys ↔ ∃ name, (name, key) ∈ environ ∧ named name)
  ∧ (∀ e, get_api_keys environ = Raise e → e = NoCredentials)
  ∧ (∀ name value rest,
       named name →
       get_api_keys ((name, value) :: rest)
       = Return (value :: match get_api_keys rest with
                          | Return keys => keys
                          | Raise _ => []
                          end)).
Proof.
  intros named. unfold get_api_keys.
  set (P := λ kv : string * string,
              String.prefix "GEMINI_API_KEY" kv.1 = true).
  assert (∀ key, key ∈ (filter P environ).*2
                 ↔ ∃ name, (name, key) ∈ environ ∧ named name) as Hmem.
  { intros key. rewrite list_elem_of_fmap. split.
    - intros ([name k] & -> & Hin). apply list_elem_of_filter in Hin as [Hp Hin].
      exists name. split; [done|]. by apply prefix_app_iff.
    - intros (name & Hin & Hn). exists (name, key). split; [done|].
      apply list_elem_of_filter. split; [|done]. by apply prefix_app_iff. }
  split_and!.
  - destruct ((filter P environ).*2) as [|k ks] eqn:Hf.
    + split; [|done]. intros _ name value Hin Hn.
      assert (value ∈ @nil string) as Hv; [|by apply elem_of_nil in Hv].
      apply Hmem. eauto.
    + split; [done|]. intros Hnone. exfalso.
      assert (k ∈ k :: ks) as Hk by apply list_elem_of_here.
      apply Hmem in Hk as (name & Hin & Hn). by apply (Hnone name k).
  - intros keys Hk. destruct ((filter P environ).*2) as [|k ks] eqn:Hf;
      [done|]. injection Hk as <-. split_and!; [done| |done].
    rewrite <- Hf. apply fmap_sublist, sublist_filter.
  - intros e. by destruct ((filter P environ).*2); intros [= <-].
  - intros name value rest Hn. rewrite filter_cons_True
      by by apply prefix_app_iff.
    rewrite fmap_cons. generalize ((filter P rest).*2). by intros [|].
Qed.

(** An empty key and a repeated key are both returned. *)
Example empty_and_repeated_keys :
  get_api_keys [("GEMINI_API_KEY", ""); ("HOME", "/root");
                ("GEMINI_API_KEY_B", "k"); ("GEMINI_API_KEYS", "k");
                ("MY_GEMINI_API_KEY", "x")]
  = Return [""; "k"; "k"].
Proof. reflexivity. Qed.

(* ------------------------------------------------------------------ *)
(** ** The sizes of the tiers *)
(* ------------------------------------------------------------------ *)

(** The positions of a tier among [n]: from [tier_from] on, up to and
    without [tier_to].  The bounds are [n/5], [n/2] and [4n/5], each
    rounded up. *)
Definition tier_from (n : nat) (t : tier) : nat :=
  match t with
  | tS => 0 | tA => (n + 4) / 5 | tB => (n + 1) / 2 | tC => (4 * n + 4) / 5
  end.

Definition tier_to (n : nat) (t : tier) : nat :=
  match t with
  | tS => (n + 4) / 5 | tA => (n + 1) / 2 | tB => (4 * n + 4) / 5 | tC => n
  end.

Lemma tier_letter_range (i n : nat) (t : tier) :
  i < n → tier_letter i n = t ↔ tier_from n t ≤ i < tier_to n t.
Proof.
  intros Hi. rewrite tier_letter_int.
  pose proof (Nat.div_mod_eq (n + 4) 5).
  pose proof (Nat.mod_upper_bound (n + 4) 5 ltac:(lia)).
  pose proof (Nat.div_mod_eq (n + 1) 2).
  pose proof (Nat.mod_upper_bound (n + 1) 2 ltac:(lia)).
  pose proof (Nat.div_mod_eq (4 * n + 4) 5).
  pose proof (Nat.mod_upper_bound (4 * n + 4) 5 ltac:(lia)).
  destruct t; unfold tier_from, tier_to; repeat case_decide;
    (split; [intros ?; try done; lia|intros ?; try done; exfalso; lia]).
Qed.

Lemma count_range (a b n : nat) :
  length (filter (λ i, a ≤ i < b) (seq 0 n)) = b `min` n - a `min` n.
Proof.
  induction n as [|n IH]; [simpl; lia|].
  rewrite seq_S, filter_app, length_app, IH.
  rewrite filter_cons, filter_nil. change (0 + n) with n.
  case_decide; simpl length; lia.
Qed.

Lemma tier_bounds_ordered (n : nat) (t : tier) :
  tier_from n t ≤ tier_to n t ≤ n.
Proof.
  pose proof (Nat.div_mod_eq (n + 4) 5).
  pose proof (Nat.mod_upper_bound (n + 4) 5 ltac:(lia)).
  pose proof (Nat.div_mod_eq (n + 1) 2).
  pose proof (Nat.mod_upper_bound (n + 1) 2 ltac:(lia)).
  pose proof (Nat.div_mod_eq (4 * n + 4) 5).
  pose proof (Nat.mod_upper_bound (4 * n + 4) 5 ltac:(lia)).
  destruct t; unfold tier_from, tier_to; lia.
Qed.

Lemma length_filter_fmap {A B} (f : A → B) (P : B → Prop)
    `{!∀ y, Decision (P y)} (l : list A) :
  length (filter (λ x, P (f x)) l) = length (filter P (f <$> l)).
Proof.
  induction l as [|x l IH]; [done|]. rewrite fmap_cons, !filter_cons.
  destruct (decide (P (f x))); simpl; by rewrite IH.
Qed.

Lemma enumerate_letters {X} (start n : nat) (l : list (string * X)) :
  (tier_item n <$> enumerate start l).*2
  = (λ i, tier_letter i n) <$> seq start (length l).
Proof.
  revert start. induction l as [|x l IH]; intros start; [done|].
  simpl. by rewrite IH.
Qed.

(** The number of models [tier_rank] puts in a tier. *)
Lemma tier_rank_count {X} (rank_list : list (string * X)) (t : tier) :
  NoDup rank_list.*1 →
  length (filter (λ mt, mt.2 = t) (tier_rank rank_list))
  = tier_to (length rank_list) t - tier_from (length rank_list) t.
Proof.
  intros Hnd. set (n := length rank_list).
  trans (length (filter (λ t', t' = t) (tier_rank rank_list).*2));
    [exact (length_filter_fmap snd (λ t', t' = t) (tier_rank rank_list))|].
  rewrite tier_rank_items, enumerate_letters by done. fold n.
  trans (length (filter (λ i, tier_letter i n = t) (seq 0 n)));
    [symmetry;
     exact (length_filter_fmap (λ i, tier_letter i n) (λ t', t' = t)
              (seq 0 n))|].
  rewrite (filter_ext_elem _ (λ i, tier_from n t ≤ i < tier_to n t)).
  - rewrite count_range. pose proof (tier_bounds_ordered n t). lia.
  - intros i Hi%list_elem_of_In%in_seq. apply tier_letter_range. lia.
Qed.

(** The letters of a component of [multi_tiers] are those of the ranking
    it comes from, model by model. *)
Lemma component_count (multi_tiers : dict tiers3) (sel : tiers3 → tier)
    (rank_list : list (string * Metric.t)) (t : tier) :
  NoDup multi_tiers.*1 →
  NoDup rank_list.*1 →
  rank_list.*1 ≡ₚ multi_tiers.*1 →
  (∀ m x, (m, x) ∈ multi_tiers →
          PyDict.get (tier_rank rank_list) m = Some (sel x)) →
  length (filter (λ mx, sel mx.2 = t) multi_tiers)
  = tier_to (length multi_tiers) t - tier_from (length multi_tiers) t.
Proof.
  intros Hmt Hrank Hperm Hsel.
  assert (length multi_tiers = length rank_list) as ->.
  { rewrite <- (length_fmap fst multi_tiers), <- Hperm. apply length_fmap. }
  rewrite <- (tier_rank_count rank_list t Hrank).
  trans (length (filter (λ mt : string * tier, mt.2 = t)
                        (prod_map id sel <$> multi_tiers)));
    [exact (length_filter_fmap (prod_map id sel)
              (λ mt : string * tier, mt.2 = t) multi_tiers)|].
  apply Permutation_length.
  assert (prod_map id sel <$> multi_tiers ≡ₚ tier_rank rank_list) as ->;
    [|done].
  assert (PyDict.wf (tier_rank rank_list)) as Hwf
    by (unfold PyDict.wf; by rewrite tier_rank_keys).
  apply NoDup_Permutation.
  - apply (NoDup_fmap_1 fst). rewrite <- list_fmap_compose.
    replace (fst ∘ prod_map id sel) with (@fst string tiers3); done.
  - by apply (NoDup_fmap_1 fst).
  - intros [m t']. split.
    + intros ([m' x] & [= -> ->] & Hin)%list_elem_of_fmap.
      apply PyDict.get_Some_in. by apply Hsel.
    + intros Hin. apply list_elem_of_fmap.
      assert (m ∈ multi_tiers.*1) as Hm.
      { rewrite <- Hperm, <- (tier_rank_keys rank_list) by done.
        apply list_elem_of_fmap. by exists (m, t'). }
      apply list_elem_of_fmap in Hm as ([m' x] & Heq & Hx).
      simpl in Heq. subst m'.
      exists (m, x). split; [|done]. unfold prod_map. simpl. f_equal.
      apply PyDict.get_wf_in in Hin; [|done].
      rewrite (Hsel m x Hx) in Hin. by simplify_eq.
Qed.

(** X11.  Of [n] models, each of the three classifications (fast,
    quality, balance) puts [n/5] rounded up in tier S, then as many in A
    as are needed to reach [n/2] rounded up, then as many in B as are
    needed to reach [4n/5] rounded up, and the rest in C.  So a non-empty
    store always has a model in tier S, and with fewer than five models
    nobody is in tier C. *)
Theorem X11_tier_sizes (fs : files) :
  let n := length (load_stats fs) in
  ∃ multi_tiers,
    assign_multi_tiers (load_stats fs) = Some multi_tiers
    ∧ length multi_tiers = n
    ∧ (∀ sel, sel ∈ [fast; quality; balance] →
         let size t := length (filter (λ mx, sel mx.2 = t) multi_tiers) in
         size tS = (n + 4) / 5
         ∧ size tS + size tA = (n + 1) / 2
         ∧ size tS + size tA + size tB = (4 * n + 4) / 5
         ∧ size tS + size tA + size tB + size tC = n
         ∧ (0 < n → 0 < size tS)
         ∧ (n < 5 → size tC = 0)).
Proof.
  intros n.
  destruct (assign_multi_tiers_total (load_stats fs)) as (mt & Hmt & Hk & Ht).
  pose proof (load_stats_wf fs) as Hwf.
  assert (length mt = n) as Hlen.
  { unfold n. rewrite <- (length_fmap fst mt), Hk. apply length_fmap. }
  exists mt. split_and!; [done..|].
  intros sel Hsel size.
  assert (∀ t, size t = tier_to n t - tier_from n t) as Hsize.
  { intros t. unfold size. rewrite <- Hlen.
    assert (NoDup mt.*1) as Hnd by (rewrite Hk; apply Hwf).
    assert (∀ {K} (lt : K → K → bool) key,
              NoDup (sorted lt key (metrics_of (load_stats fs))).*1
              ∧ (sorted lt key (metrics_of (load_stats fs))).*1 ≡ₚ mt.*1)
      as Hrank.
    { intros K lt key. split; [apply ranking_NoDup, metrics_of_wf|].
      rewrite ranking_keys_perm, Hk.
      rewrite metrics_of_items by done. unfold PyDict.keys.
      rewrite <- list_fmap_compose. done. }
    repeat (apply elem_of_cons in Hsel as [->|Hsel]).
    - destruct (Hrank _ PrimFloat.ltb (λ x, Metric.latency x.2)).
      apply (component_count mt fast
               (fast_rank (metrics_of (load_stats fs)))); try done.
      intros m x Hin. by apply Ht.
    - destruct (Hrank _ Z.ltb (λ x, (- Metric.max_tokens x.2)%Z)).
      apply (component_count mt quality
               (quality_rank (metrics_of (load_stats fs)))); try done.
      intros m x Hin. by apply Ht.
    - destruct (Hrank _ PrimFloat.ltb (λ x, balance_key x.2)).
      apply (component_count mt balance
               (balance_rank (metrics_of (load_stats fs)))); try done.
      intros m x Hin. by apply Ht.
    - by apply elem_of_nil in Hsel. }
  rewrite !Hsize. unfold tier_from, tier_to.
  pose proof (tier_bounds_ordered n tS). pose proof (tier_bounds_ordered n tA).
  pose proof (tier_bounds_ordered n tB). pose proof (tier_bounds_ordered n tC).
  unfold tier_from, tier_to in *.
  pose proof (Nat.div_mod_eq (n + 4) 5).
  pose proof (Nat.mod_upper_bound (n + 4) 5 ltac:(lia)).
  pose proof (Nat.div_mod_eq (4 * n + 4) 5).
  pose proof (Nat.mod_upper_bound (4 * n + 4) 5 ltac:(lia)).
  split_and!; lia.
Qed.

(* ------------------------------------------------------------------ *)
(** ** The rankings are sorted, and stably so *)
(* ------------------------------------------------------------------ *)

(** [a] stands before [b] in [l]. *)
Definition before {A} (a b : A) (l : list A) : Prop := [a; b] `sublist_of` l.

Lemma before_lookup {A} (a b : A) (l : list A) :
  before a b l ↔ ∃ p q, p < q ∧ l !! p = Some a ∧ l !! q = Some b.
Proof.
  unfold before. split.
  - induction l as [|x l IH]; intros Hsub.
    + by apply sublist_nil_r in Hsub.
    + apply sublist_cons_r in Hsub as [Hsub|(l' & [= <- <-] & Hsub)].
      * destruct (IH Hsub) as (p & q & ? & ? & ?).
        exists (S p), (S q). split_and!; [lia|done..].
      * assert (b ∈ l) as (q & Hq)%list_elem_of_lookup.
        { eapply elem_of_sublist; [|done]. by left. }
        exists 0, (S q). split_and!; [lia|done..].
  - intros (p & q & Hpq & Hp & Hq).
    rewrite <- (take_drop_middle l p a Hp).
    apply sublist_inserts_l, sublist_skip.
    assert (drop (S p) l !! (q - S p) = Some b) as Hb.
    { rewrite lookup_drop. rewrite <- Hq. f_equal. lia. }
    rewrite <- (take_drop_middle _ _ _ Hb).
    apply sublist_inserts_l, sublist_skip, sublist_nil_l.
Qed.

Section SortedFacts.
Context {A K : Type} (lt : K → K → bool) (key : A → K).

(** Where [insert_stable] puts the new item: behind the items it passes,
    all of which have a smaller key, and before the first item whose key
    is not smaller. *)
Lemma insert_stable_split x l :
  ∃ l1 l2,
    l = l1 ++ l2
    ∧ insert_stable lt key x l = l1 ++ x :: l2
    ∧ Forall (λ y, lt (key y) (key x) = true) l1
    ∧ ∀ y, head l2 = Some y → lt (key y) (key x) = false.
Proof.
  induction l as [|y l (l1 & l2 & -> & Heq & Hl1 & Hl2)]; simpl.
  - exists [], []. split_and!; [done..|]. by intros y [=].
  - destruct (lt (key y) (key x)) eqn:Hlt.
    + exists (y :: l1), l2. rewrite Heq. split_and!; [done..|by constructor|done].
    + exists [], (y :: l1 ++ l2). split_and!; [done..|].
      by intros y' [= <-].
Qed.

(** Stability: an item that came first and whose key is not greater
    stays first. *)
Lemma sorted_stable a b l :
  before a b l → lt (key b) (key a) = false → before a b (sorted lt key l).
Proof.
  unfold before. intros Hsub Hba.
  induction l as [|x l IH]; [done|]. simpl.
  destruct (insert_stable_split x (sorted lt key l))
    as (l1 & l2 & Hl & -> & Hl1 & _).
  apply sublist_cons_r in Hsub as [Hsub|(l' & [= <- <-] & Hsub)].
  - trans (l1 ++ l2); [rewrite <- Hl; by apply IH|].
    apply sublist_app; [done|]. by apply sublist_cons.
  - assert (b ∈ sorted lt key l) as Hb.
    { rewrite sorted_Permutation. eapply elem_of_sublist; [|done]. by left. }
    rewrite Hl in Hb. apply elem_of_app in Hb as [Hb|Hb].
    + rewrite Forall_forall in Hl1. apply Hl1 in Hb. congruence.
    + apply sublist_inserts_l, sublist_skip.
      apply list_elem_of_split in Hb as (l3 & l4 & ->).
      apply sublist_inserts_l, sublist_skip, sublist_nil_l.
Qed.

Context (ok : K → Prop).
Hypothesis lt_asym : ∀ a b, ok a → ok b → lt a b = true → lt b a = false.
Hypothesis lt_negtrans : ∀ a b c, ok a → ok b → ok c →
  lt b a = false → lt c b = false → lt c a = false.

(** No item of the sorted list has a smaller key than an item before
    it. *)
Lemma sorted_StronglySorted l :
  Forall (λ x, ok (key x)) l →
  StronglySorted (λ x y, lt (key y) (key x) = false) (sorted lt key l).
Proof.
  induction l as [|x l IH]; intros Hok; [constructor|].
  apply Forall_cons in Hok as [Hx Hok]. simpl.
  specialize (IH Hok).
  assert (Forall (λ x, ok (key x)) (sorted lt key l)) as Hok'
    by by rewrite sorted_Permutation.
  destruct (insert_stable_split x (sorted lt key l))
    as (l1 & l2 & Hl & -> & Hl1 & Hl2).
  rewrite Hl in IH, Hok'.
  apply StronglySorted_app in IH as (H12 & Hs1 & Hs2).
  apply Forall_app in Hok' as [Hok1 Hok2].
  apply StronglySorted_app_2; [| done |].
  - intros y z Hy [->|Hz]%elem_of_cons; [|by apply H12].
    rewrite Forall_forall in Hl1, Hok1. apply lt_asym; auto.
  - constructor; [done|].
    destruct l2 as [|y l2]; [done|].
    specialize (Hl2 y eq_refl).
    apply StronglySorted_inv in Hs2 as [_ Hy].
    apply Forall_cons in Hok2 as [Hoky Hok2].
    constructor; [done|].
    rewrite Forall_forall in Hy, Hok2 |- *. intros z Hz.
    apply (lt_negtrans _ (key y)); auto.
Qed.

(** An item with a smaller key comes first. *)
Lemma sorted_strict a b l :
  Forall (λ x, ok (key x)) l →
  a ∈ l → b ∈ l → lt (key a) (key b) = true →
  before a b (sorted lt key l).
Proof.
  intros Hok Ha Hb Hlt. pose proof (sorted_StronglySorted l Hok) as Hs.
  rewrite Forall_forall in Hok.
  pose proof (Hok a Ha) as Hoka. pose proof (Hok b Hb) as Hokb.
  rewrite <- (sorted_Permutation lt key) in Ha, Hb.
  apply list_elem_of_split in Ha as (l1 & l2 & Hl). rewrite Hl in Hs, Hb |- *.
  unfold before. apply sublist_inserts_l, sublist_skip.
  apply elem_of_app in Hb as [Hb|[->|Hb]%elem_of_cons].
  - apply StronglySorted_app in Hs as (H12 & _ & _).
    specialize (H12 b a Hb ltac:(by left)). simpl in H12. congruence.
  - by rewrite (lt_asym _ _ Hoka Hoka Hlt) in Hlt.
  - apply list_elem_of_split in Hb as (l3 & l4 & ->).
    apply sublist_inserts_l, sublist_skip, sublist_nil_l.
Qed.
End SortedFacts.

(* ------------------------------------------------------------------ *)
(** ** Binary64: the order of [<], and sums and means of positive values *)
(* ------------------------------------------------------------------ *)

(** [<] on the values that are not NaN is the lexicographic order of
    these triples. *)
Definition SFrank (f : spec_float) : Z * Z * Z :=
  match f with
  | S754_infinity true => (-2, 0, 0)
  | S754_finite true m e => (-1, - e, Z.neg m)
  | S754_zero _ | S754_nan => (0, 0, 0)
  | S754_finite false m e => (1, e, Z.pos m)
  | S754_infinity false => (2, 0, 0)
  end%Z.

Definition lex_lt (x y : Z * Z * Z) : Prop :=
  (x.1.1 < y.1.1
   ∨ x.1.1 = y.1.1 ∧ (x.1.2 < y.1.2 ∨ x.1.2 = y.1.2 ∧ x.2 < y.2))%Z.

Lemma SFltb_rank (f1 f2 : spec_float) :
  f1 ≠ S754_nan → f2 ≠ S754_nan →
  SFltb f1 f2 = true ↔ lex_lt (SFrank f1) (SFrank f2).
Proof.
  intros H1 H2. unfold SFltb, lex_lt.
  destruct f1 as [[]|[]| |[] m1 e1], f2 as [[]|[]| |[] m2 e2];
    try done; simpl; try (split; [intros; lia|intros; try done; lia]).
  - destruct (Z.compare_spec e1 e2); simpl.
    + change (Pos.compare_cont Eq m1 m2) with (m1 ?= m2)%positive.
      destruct (Pos.compare_spec m1 m2); simpl;
        (split; [intros; try done; lia|intros; try done; lia]).
    + split; [intros; try done; lia|intros; try done; lia].
    + split; [intros; try done; lia|intros; try done; lia].
  - destruct (Z.compare_spec e1 e2); simpl.
    + change (Pos.compare_cont Eq m1 m2) with (m1 ?= m2)%positive.
      destruct (Pos.compare_spec m1 m2); simpl;
        (split; [intros; try done; lia|intros; try done; lia]).
    + split; [intros; try done; lia|intros; try done; lia].
    + split; [intros; try done; lia|intros; try done; lia].
Qed.

Lemma is_nan_Prim2SF (x : float) :
  is_nan x = false ↔ Prim2SF x ≠ S754_nan.
Proof.
  unfold is_nan. rewrite FloatAxioms.eqb_spec. unfold SFeqb.
  destruct (Prim2SF x) as [[]|[]| |[] m e]; simpl; try done.
  - rewrite Z.compare_refl. change (Pos.compare_cont Eq m m) with (m ?= m)%positive.
    by rewrite Pos.compare_refl.
  - rewrite Z.compare_refl. change (Pos.compare_cont Eq m m) with (m ?= m)%positive.
    by rewrite Pos.compare_refl.
Qed.

Lemma ltb_asym (x y : float) :
  is_nan x = false → is_nan y = false →
  (x <? y)%float = true → (y <? x)%float = false.
Proof.
  rewrite !is_nan_Prim2SF, !ltb_spec. intros Hx Hy.
  rewrite SFltb_rank by done. intros Hlt.
  apply not_true_is_false. rewrite SFltb_rank by done.
  unfold lex_lt in *. lia.
Qed.

Lemma ltb_negtrans (x y z : float) :
  is_nan x = false → is_nan y = false → is_nan z = false →
  (y <? x)%float = false → (z <? y)%float = false → (z <? x)%float = false.
Proof.
  rewrite !is_nan_Prim2SF, !ltb_spec. intros Hx Hy Hz.
  rewrite <- !not_true_iff_false, !SFltb_rank by done.
  unfold lex_lt. lia.
Qed.

(** Zero, a positive value or plus infinity. *)
Definition SFnonneg (f : spec_float) : Prop :=
  match f with
  | S754_zero false | S754_finite false _ _ | S754_infinity false => True
  | _ => False
  end.

Lemma iter_pos_invariant {A} (f : A → A) (P : A → Prop) (n : positive) x :
  (∀ y, P y → P (f y)) → P x → P (SpecFloat.iter_pos f n x).
Proof.
  intros Hf. revert x. induction n as [n IH|n IH|]; simpl; auto.
Qed.

Lemma shr_1_nonneg mrs : (0 ≤ shr_m mrs → 0 ≤ shr_m (shr_1 mrs))%Z.
Proof. destruct mrs as [[|[]|[]] r s]; simpl; lia. Qed.

Lemma shr_fexp_nonneg m e l :
  (0 ≤ m → 0 ≤ shr_m (shr_fexp prec emax m e l).1)%Z.
Proof.
  intros Hm. unfold shr_fexp, shr.
  assert (0 ≤ shr_m (shr_record_of_loc m l))%Z
    by (by destruct l as [|[]]).
  destruct (_ - e)%Z; simpl; [done| |done].
  apply iter_pos_invariant; [apply shr_1_nonneg|done].
Qed.

Lemma round_nearest_even_nonneg m l :
  (0 ≤ m → 0 ≤ round_nearest_even m l)%Z.
Proof. destruct l as [|[]]; simpl; [done| |done|lia]. destruct (Z.even m); lia. Qed.

Lemma binary_round_aux_nonneg m e l :
  (0 ≤ m)%Z → SFnonneg (binary_round_aux prec emax false m e l).
Proof.
  intros Hm. unfold binary_round_aux.
  pose proof (shr_fexp_nonneg m e l Hm) as H1.
  destruct (shr_fexp prec emax m e l) as [mrs' e']. simpl in H1.
  pose proof (shr_fexp_nonneg _ e' loc_Exact
                (round_nearest_even_nonneg _ (loc_of_shr_record mrs') H1)) as H2.
  destruct (shr_fexp prec emax _ e' loc_Exact) as [mrs'' e'']. simpl in H2.
  destruct (shr_m mrs''); [done| |lia].
  by destruct (_ <=? _)%Z.
Qed.

Lemma SFadd_nonneg x y :
  SFnonneg x → SFnonneg y → SFnonneg (SFadd prec emax x y).
Proof.
  destruct x as [[]|[]| |[] mx ex], y as [[]|[]| |[] my ey]; try done.
  intros _ _. unfold SFadd, cond_Zopp, binary_normalize.
  rewrite <- Pos2Z.inj_add. unfold binary_round.
  destruct (shl_align _ _ _) as [mz ez].
  by apply binary_round_aux_nonneg.
Qed.

Lemma SFdiv_nonneg x my ey :
  SFnonneg x → SFnonneg (SFdiv prec emax x (S754_finite false my ey)).
Proof.
  destruct x as [[]|[]| |[] mx ex]; try done.
  intros _. unfold SFdiv, SFdiv_core_binary.
  set (m' := match _ with Z0 => _ | _ => _ end).
  assert (0 ≤ m')%Z.
  { unfold m'. destruct (_ - _ - _)%Z; [done| |done].
    apply Z.shiftl_nonneg. lia. }
  pose proof (Z_div_mod m' (Z.pos my) ltac:(lia)) as Hdiv.
  destruct (Z.div_eucl m' (Z.pos my)) as [q r].
  apply binary_round_aux_nonneg. nia.
Qed.

(** The mean latency of a window *)

Lemma positive_SFnonneg (l : float) :
  (0 <? l)%float = true → SFnonneg (Prim2SF l).
Proof.
  rewrite ltb_spec.
  replace (Prim2SF 0) with (S754_zero false) by (by vm_compute).
  by destruct (Prim2SF l) as [[]|[]| |[]].
Qed.

Lemma SFnonneg_not_nan (x : float) :
  SFnonneg (Prim2SF x) → is_nan x = false ∧ (x <? 0)%float = false.
Proof.
  intros Hx. split.
  - apply is_nan_Prim2SF. by destruct (Prim2SF x).
  - rewrite ltb_spec.
    replace (Prim2SF 0) with (S754_zero false) by (by vm_compute).
    by destruct (Prim2SF x) as [[]|[]| |[]].
Qed.

Lemma sum_float_nonneg (l : list float) :
  Forall (λ x, SFnonneg (Prim2SF x)) l → SFnonneg (Prim2SF (sum_float l)).
Proof.
  unfold sum_float.
  assert (SFnonneg (Prim2SF 0)) as Hacc by (by vm_compute).
  revert Hacc. generalize 0%float as acc.
  induction l as [|x l IH]; intros acc Hacc Hl; [done|].
  apply Forall_cons in Hl as [Hx Hl]. simpl. apply IH; [|done].
  rewrite add_spec. by apply SFadd_nonneg.
Qed.

(** The counts a window of [ROLLING_WINDOW] records can give are
    positive numbers of binary64. *)
Lemma window_count_finite (k : nat) :
  1 ≤ k ≤ ROLLING_WINDOW →
  ∃ m e, Prim2SF (float_of_Z (Z.of_nat k)) = S754_finite false m e.
Proof.
  unfold ROLLING_WINDOW. intros Hk.
  destruct k as [|k]; [lia|].
  do 20 (destruct k as [|k]; [vm_compute; eauto|]). lia.
Qed.

Lemma mean_nonneg (l : list float) :
  Forall (λ x, (0 <? x)%float = true) l →
  1 ≤ length l ≤ ROLLING_WINDOW →
  SFnonneg (Prim2SF (mean l)).
Proof.
  intros Hl Hlen. unfold mean. rewrite div_spec.
  destruct (window_count_finite _ Hlen) as (m & e & ->).
  apply SFdiv_nonneg, sum_float_nonneg.
  eapply Forall_impl; [done|]. apply positive_SFnonneg.
Qed.

Lemma derive_latency_nonneg (entries : list Entry.t) :
  length entries ≤ ROLLING_WINDOW →
  SFnonneg (Prim2SF (Metric.latency (derive entries))).
Proof.
  intros Hlen. destruct entries as [|e es]; [by vm_compute|].
  unfold derive. cbn [Metric.latency].
  pose proof (length_filter (λ l, (0 <? l)%float = true)
                (Entry.latency <$> e :: es)) as Hf.
  rewrite length_fmap in Hf. fold (positive_latencies (e :: es)) in Hf.
  assert (Forall (λ x, (0 <? x)%float = true) (positive_latencies (e :: es)))
    as Hpos
    by (apply Forall_forall; intros x Hx;
        by apply list_elem_of_filter in Hx as [? _]).
  destruct (positive_latencies (e :: es)) as [|l ls] eqn:Heq; [by vm_compute|].
  apply (mean_nonneg (l :: ls)); [done|]. simpl in *. lia.
Qed.

Lemma loaded_latency_nonneg (fs : files) :
  Forall (λ mx : string * Metric.t, SFnonneg (Prim2SF (Metric.latency mx.2)))
         (metrics_of (load_stats fs)).
Proof.
  pose proof (load_stats_wf fs) as Hwf.
  rewrite metrics_of_items by done. apply Forall_fmap, Forall_forall.
  intros [m w] Hin. simpl. apply derive_latency_nonneg.
  apply (load_stats_bounded fs m). by apply PyDict.get_wf_in.
Qed.

(* ------------------------------------------------------------------ *)
(** ** Rank and tier follow the score *)
(* ------------------------------------------------------------------ *)

(** Tiers from the best to the worst. *)
Definition tier_index (t : tier) : nat :=
  match t with tS => 0 | tA => 1 | tB => 2 | tC => 3 end.

Lemma tier_letter_mono (p q n : nat) :
  p ≤ q → tier_index (tier_letter p n) ≤ tier_index (tier_letter q n).
Proof.
  intros Hpq. rewrite !tier_letter_int.
  repeat case_decide; simpl; lia.
Qed.

Lemma before_tier {X} (rank_list : list (string * X)) a b ta tb :
  NoDup rank_list.*1 →
  before a b rank_list →
  PyDict.get (tier_rank rank_list) a.1 = Some ta →
  PyDict.get (tier_rank rank_list) b.1 = Some tb →
  tier_index ta ≤ tier_index tb.
Proof.
  intros Hnd (p & q & Hpq & Hp & Hq)%before_lookup.
  destruct a as [ma xa], b as [mb xb]. simpl.
  rewrite (tier_rank_get _ _ _ _ Hnd Hp), (tier_rank_get _ _ _ _ Hnd Hq).
  intros [= <-] [= <-]. apply tier_letter_mono. lia.
Qed.

Section RankingOrder.
Context {K : Type} (lt : K → K → bool) (key : string * Metric.t → K).
Context (ok : K → Prop).
Hypothesis lt_asym : ∀ a b, ok a → ok b → lt a b = true → lt b a = false.
Hypothesis lt_negtrans : ∀ a b c, ok a → ok b → ok c →
  lt b a = false → lt c b = false → lt c a = false.

(** [a] goes first: its key is smaller, or it is not greater and [a] is
    the earlier of the two in the store. *)
Definition goes_first (i j : nat) (a b : string * Metric.t) : Prop :=
  lt (key a) (key b) = true ∨ lt (key b) (key a) = false ∧ i < j.

Lemma ranking_before (metrics : dict Metric.t) i j a b :
  Forall (λ mx, ok (key mx)) metrics →
  metrics !! i = Some a → metrics !! j = Some b →
  goes_first i j a b →
  before a b (sorted lt key metrics).
Proof.
  intros Hok Ha Hb [Hlt|[Hle Hij]].
  - apply (sorted_strict lt key ok lt_asym lt_negtrans); [done| | |done].
    + by eapply list_elem_of_lookup_2.
    + by eapply list_elem_of_lookup_2.
  - apply sorted_stable; [|done]. apply before_lookup. by exists i, j.
Qed.

Lemma ranking_tiers (stats : dict (list Entry.t)) i j a b ta tb :
  let metrics := metrics_of stats in
  Forall (λ mx, ok (key mx)) metrics →
  metrics !! i = Some a → metrics !! j = Some b →
  goes_first i j a b →
  PyDict.get (tier_rank (sorted lt key metrics)) a.1 = Some ta →
  PyDict.get (tier_rank (sorted lt key metrics)) b.1 = Some tb →
  tier_index ta ≤ tier_index tb.
Proof.
  intros metrics Hok Ha Hb Hfirst.
  apply before_tier; [apply ranking_NoDup, metrics_of_wf|].
  by eapply ranking_before.
Qed.
End RankingOrder.

Lemma StronglySorted_impl {A} (R1 R2 : relation A) (l : list A) :
  (∀ x y, R1 x y → R2 x y) → StronglySorted R1 l → StronglySorted R2 l.
Proof.
  intros HR. induction 1 as [|x l Hs IH Hx]; constructor; [done|].
  eapply Forall_impl; [done|]. auto.
Qed.

(** X12.  The quality ranking of [assign_multi_tiers] lists the models by
    capacity, the largest first, and models of equal capacity in the
    order of the store.  Hence the quality tier follows the capacity: a
    model with a larger capacity than another, or with the same capacity
    and an earlier place in the store, never has the worse quality tier
    of the two. *)
Theorem X12_quality_ranking (stats : dict (list Entry.t)) :
  let metrics := metrics_of stats in
  let capacity (mx : string * Metric.t) := Metric.max_tokens mx.2 in
  let first (i j : nat) (a b : string * Metric.t) :=
    (capacity b < capacity a)%Z ∨ capacity a = capacity b ∧ i < j in
  StronglySorted (λ a b, (capacity b ≤ capacity a)%Z) (quality_rank metrics)
  ∧ (∀ i j a b,
       metrics !! i = Some a → metrics !! j = Some b → first i j a b →
       ∃ p q, p < q ∧ quality_rank metrics !! p = Some a
              ∧ quality_rank metrics !! q = Some b)
  ∧ (∀ multi_tiers i j a b ta tb,
       assign_multi_tiers stats = Some multi_tiers →
       metrics !! i = Some a → metrics !! j = Some b → first i j a b →
       (a.1, ta) ∈ multi_tiers → (b.1, tb) ∈ multi_tiers →
       tier_index (quality ta) ≤ tier_index (quality tb)).
Proof.
  intros metrics capacity first.
  set (key := λ x : string * Metric.t, (- Metric.max_tokens x.2)%Z).
  assert (∀ a b : Z, True → True → (a <? b)%Z = true → (b <? a)%Z = false)
    as Hasym by (intros; lia).
  assert (∀ a b c : Z, True → True → True →
            (b <? a)%Z = false → (c <? b)%Z = false → (c <? a)%Z = false)
    as Htrans by (intros; lia).
  assert (Forall (λ mx, (λ _ : Z, True) (key mx)) metrics) as Hok
    by by apply Forall_forall.
  assert (∀ i j a b, first i j a b → goes_first Z.ltb key i j a b) as Hfirst.
  { intros i j a b [?|[? ?]]; [left|right]; unfold key, capacity in *; lia. }
  split_and!.
  - eapply StronglySorted_impl;
      [|exact (sorted_StronglySorted Z.ltb key _ Hasym Htrans metrics Hok)].
    intros x y. unfold key, capacity. simpl. lia.
  - intros i j a b Ha Hb Hab. apply before_lookup.
    exact (ranking_before Z.ltb key _ Hasym Htrans metrics i j a b
             Hok Ha Hb (Hfirst _ _ _ _ Hab)).
  - intros multi_tiers i j a b ta tb Hmt Ha Hb Hab Hta Htb.
    destruct (assign_multi_tiers_total stats) as (mt & Hmt' & _ & Ht).
    rewrite Hmt in Hmt'. injection Hmt' as <-.
    destruct (Ht _ _ Hta) as (_ & Hqa & _), (Ht _ _ Htb) as (_ & Hqb & _).
    exact (ranking_tiers Z.ltb key _ Hasym Htrans stats i j a b _ _
             Hok Ha Hb (Hfirst _ _ _ _ Hab) Hqa Hqb).
Qed.

(** X13.  The mean latency of a loaded window is never NaN and never
    negative: the records with a latency that is not positive are left
    out of the mean, and a window without a positive latency gets
    infinity.  So the fast ranking really is sorted: it lists the models
    by mean latency, the smallest first (those without a measured
    latency last), models with the same latency in the order of the
    store, and the fast tier follows the latency. *)
Theorem X13_fast_ranking (fs : files) :
  let metrics := metrics_of (load_stats fs) in
  let latency (mx : string * Metric.t) := Metric.latency mx.2 in
  let first (i j : nat) (a b : string * Metric.t) :=
    (latency a <? latency b)%float = true
    ∨ (latency b <? latency a)%float = false ∧ i < j in
  (∀ mx, mx ∈ metrics →
     is_nan (latency mx) = false ∧ (latency mx <? 0)%float = false)
  ∧ StronglySorted (λ a b, (latency b <? latency a)%float = false)
      (fast_rank metrics)
  ∧ (∀ i j a b,
       metrics !! i = Some a → metrics !! j = Some b → first i j a b →
       ∃ p q, p < q ∧ fast_rank metrics !! p = Some a
              ∧ fast_rank metrics !! q = Some b)
  ∧ (∀ multi_tiers i j a b ta tb,
       assign_multi_tiers (load_stats fs) = Some multi_tiers →
       metrics !! i = Some a → metrics !! j = Some b → first i j a b →
       (a.1, ta) ∈ multi_tiers → (b.1, tb) ∈ multi_tiers →
       tier_index (fast ta) ≤ tier_index (fast tb)).
Proof.
  intros metrics latency first.
  pose proof (loaded_latency_nonneg fs) as Hnn. fold metrics in Hnn.
  assert (Forall (λ mx, (λ x, is_nan x = false) (latency mx)) metrics) as Hok.
  { eapply Forall_impl; [exact Hnn|]. intros mx Hmx.
    by apply SFnonneg_not_nan. }
  split_and!.
  - intros mx Hmx. rewrite Forall_forall in Hnn.
    by apply SFnonneg_not_nan, Hnn.
  - exact (sorted_StronglySorted PrimFloat.ltb latency _
             ltb_asym ltb_negtrans metrics Hok).
  - intros i j a b Ha Hb Hab. apply before_lookup.
    exact (ranking_before PrimFloat.ltb latency _ ltb_asym ltb_negtrans
             metrics i j a b Hok Ha Hb Hab).
  - intros multi_tiers i j a b ta tb Hmt Ha Hb Hab Hta Htb.
    destruct (assign_multi_tiers_total (load_stats fs))
      as (mt & Hmt' & _ & Ht).
    rewrite Hmt in Hmt'. injection Hmt' as <-.
    destruct (Ht _ _ Hta) as (Hfa & _), (Ht _ _ Htb) as (Hfb & _).
    exact (ranking_tiers PrimFloat.ltb latency _ ltb_asym ltb_negtrans
             (load_stats fs) i j a b _ _ Hok Ha Hb Hab Hfa Hfb).
Qed.

(** X14.  As long as no blended score is NaN, the balance ranking lists
    the models by blended score, the smallest first, models with the same
    score in the order of the store, and the balance tier, the one that
    [route_request] orders its candidates by, follows the score. *)
Theorem X14_balance_ranking (stats : dict (list Entry.t)) :
  let metrics := metrics_of stats in
  let score (mx : string * Metric.t) := balance_key mx.2 in
  let first (i j : nat) (a b : string * Metric.t) :=
    (score a <? score b)%float = true
    ∨ (score b <? score a)%float = false ∧ i < j in
  Forall (λ mx, is_nan (score mx) = false) metrics →
  StronglySorted (λ a b, (score b <? score a)%float = false)
    (balance_rank metrics)
  ∧ (∀ i j a b,
       metrics !! i = Some a → metrics !! j = Some b → first i j a b →
       ∃ p q, p < q ∧ balance_rank metrics !! p = Some a
              ∧ balance_rank metrics !! q = Some b)
  ∧ (∀ multi_tiers i j a b ta tb,
       assign_multi_tiers stats = Some multi_tiers →
       metrics !! i = Some a → metrics !! j = Some b → first i j a b →
       (a.1, ta) ∈ multi_tiers → (b.1, tb) ∈ multi_tiers →
       tier_index (balance ta) ≤ tier_index (balance tb)).
Proof.
  intros metrics score first Hok.
  split_and!.
  - exact (sorted_StronglySorted PrimFloat.ltb score _
             ltb_asym ltb_negtrans metrics Hok).
  - intros i j a b Ha Hb Hab. apply before_lookup.
    exact (ranking_before PrimFloat.ltb score _ ltb_asym ltb_negtrans
             metrics i j a b Hok Ha Hb Hab).
  - intros multi_tiers i j a b ta tb Hmt Ha Hb Hab Hta Htb.
    destruct (assign_multi_tiers_total stats) as (mt & Hmt' & _ & Ht).
    rewrite Hmt in Hmt'. injection Hmt' as <-.
    destruct (Ht _ _ Hta) as (_ & _ & Hfa), (Ht _ _ Htb) as (_ & _ & Hfb).
    exact (ranking_tiers PrimFloat.ltb score _ ltb_asym ltb_negtrans
             stats i j a b _ _ Hok Ha Hb Hab Hfa Hfb).
Qed.

Lemma X14_balance_ranking_witness :
  let metrics := metrics_of (load_stats four_models) in
  StronglySorted
    (λ a b, (balance_key b.2 <? balance_key a.2)%float = false)
    (balance_rank metrics).
Proof.
  intros metrics.
  apply (X14_balance_ranking (load_stats four_models)).
  apply (bool_decide_unpack _). by vm_compute.
Defined.

(* ------------------------------------------------------------------ *)
(** ** A cooldown outlives the call that set it *)
(* ------------------------------------------------------------------ *)

Section Cooling.
Context (W : world) (prompt : string) (m : string) (expiry : float).
Hypothesis early : ∀ n, (time_time W n <? expiry)%float = true.

(** [m] is on cooldown until [expiry], in memory and in the file, and
    has not been invoked. *)
Definition still_cooling (s : state) : Prop :=
  cooldowns s !! m = Some expiry
  ∧ load_cooldowns (disk s) !! m = Some expiry
  ∧ ∀ key, (m, key) ∉ attempts s.

Lemma try_keys_still_cooling model keys s :
  model ≠ m →
  still_cooling s → still_cooling (try_keys W model prompt keys s).2.
Proof.
  intros Hne. revert s.
  induction keys as [|key keys IH]; intros s (Hmem & Hfile & Hatt); [done|].
  rewrite try_keys_cons.
  assert (∀ key', (m, key') ∉ attempts s ++ [(model, key)]) as Hatt'.
  { intros key' [Hin|Hin%list_elem_of_singleton]%elem_of_app;
      [by apply (Hatt key')|congruence]. }
  destruct (generate_content W (length (attempts s)) model key prompt).
  - by split_and!.
  - apply IH. unfold still_cooling, load_cooldowns. simpl.
    by rewrite lookup_insert_ne.
Qed.

Lemma walk_still_cooling keys order s :
  still_cooling s → still_cooling (walk W prompt keys order s).2.
Proof.
  revert s. induction order as [|model order IH]; intros s Hs; [done|].
  rewrite walk_cons.
  assert (still_cooling (checked s model)) as Hchecked.
  { unfold checked. by destruct (cooldowns s !! model). }
  destruct (decide (model = m)) as [->|Hne].
  - unfold is_cooling at 1. destruct Hs as (-> & _). rewrite early.
    by apply IH.
  - destruct (is_cooling W s model); [by apply IH|].
    pose proof (try_keys_still_cooling model keys _ Hne Hchecked) as Htry.
    destruct (try_keys W model prompt keys (checked s model))
      as [[[reply|]|e] s']; [done|by apply IH|done].
Qed.
End Cooling.

(** X15.  A backend that the cooldown file holds with an expiry the clock
    does not reach during a routing call is not invoked in that call,
    with any key, and the call leaves its entry in the file as it is:
    the cooldown a failure sets protects the backend in the calls that
    follow, not only in the call that failed. *)
Theorem X15_cooldown_outlives_call W prompt fs m expiry :
  load_cooldowns fs !! m = Some expiry →
  (∀ n, (time_time W n <? expiry)%float = true) →
  let run := route_request W prompt (boot fs) in
  (∀ key, (m, key) ∉ attempts run.2)
  ∧ load_cooldowns (disk run.2) !! m = Some expiry.
Proof.
  intros Hfile Hearly run. subst run.
  destruct (get_api_keys (environ W)) as [keys|e] eqn:Hkeys.
  - destruct (route_request_run W prompt fs keys Hkeys) as (order & _ & ->).
    assert (still_cooling m expiry (loaded fs)) as Hs.
    { split_and!; [done..|]. intros key Hin. by apply elem_of_nil in Hin. }
    apply (walk_still_cooling W prompt m expiry Hearly keys order) in Hs.
    destruct (walk W prompt keys order (loaded fs)) as [[[reply|]|e] s'];
      by destruct Hs as (_ & ? & ?).
  - rewrite (route_request_no_keys W prompt fs e Hkeys). simpl.
    split; [|done]. intros key Hin. by apply elem_of_nil in Hin.
Qed.

(** The clock of the next call, made before the cooldown of "a" ends. *)
Definition next_call_world : world :=
  {| environ := environ second_key_world;
     time_time := λ _, 150%float;
     generate_content := generate_content second_key_world;
     list_models := λ _, [] |}.

Lemma X15_cooldown_outlives_call_witness :
  let first := route_request second_key_world "hello" (boot one_model) in
  let next := route_request next_call_world "again" (boot (disk first.2)) in
  attempts first.2 = [("a", "k1"); ("a", "k2")]
  ∧ load_cooldowns (disk first.2) !! "a" = Some 161%float
  ∧ (∀ key, ("a", key) ∉ attempts next.2)
  ∧ load_cooldowns (disk next.2) !! "a" = Some 161%float.
Proof.
  intros first next.
  split; [by vm_compute|]. split; [by vm_compute|].
  apply (X15_cooldown_outlives_call next_call_world "again" (disk first.2)
           "a" 161%float); [by vm_compute|].
  intros n. by vm_compute.
Defined.

(* ------------------------------------------------------------------ *)
(** ** Probing *)
(* ------------------------------------------------------------------ *)



Section Prober.
Context (W : world).





End Prober.





